(** * serial_bridge: the ORBUS serial controller and the uNav motor interface

    A shallow embedding of [src/hardware/serial_controller.cpp] and of
    [uNavInterface::allMotorsFrame] from [src/hardware/uNavInterface.cpp].

    The controller is a C++ object whose methods mutate its members and talk
    to a serial port.  Every method becomes a function from the controller
    state to an [outcome]: the returned value with the new state, an
    exception that leaves the method, undefined behaviour (an access outside
    an array) or a loop that is still running when the fuel is spent.
    Everything the methods do to the outside world (mutex operations, serial
    I/O, handler invocations, ROS log lines) is appended to a trace carried
    by the state, so that properties such as "no handler is invoked" or
    "nothing is transmitted" are statements about that trace. *)

From Stdlib Require Import ZArith Lia.
From stdpp Require Import base option list gmap strings pretty.

Local Open Scope Z_scope.

(** ** Outcomes of a method call *)

Inductive exn := SerialException | IOException | out_of_range.

Inductive outcome (A : Type) : Type :=
| Returns (a : A)        (* the call returns [a] *)
| Throws (e : exn)       (* an exception propagates out of the call *)
| Undefined              (* an access outside an array or object *)
| OutOfFuel.             (* the loop has not finished within the fuel *)

Arguments Returns {A} a.
Arguments Throws {A} e.
Arguments Undefined {A}.
Arguments OutOfFuel {A}.

#[global] Instance outcome_ret : MRet outcome := fun A a => Returns a.

#[global] Instance outcome_bind : MBind outcome := fun A B k m =>
  match m with
  | Returns a => k a
  | Throws e => Throws e
  | Undefined => Undefined
  | OutOfFuel => OutOfFuel
  end.

(** ** Data of the or_bus layer, as the controller uses it *)

(** [serial_status_t], with the constants the controller assigns. *)
Inductive serial_status_t :=
| SERIAL_OK | SERIAL_EMPTY | SERIAL_BUFFER_FULL | SERIAL_TIMEOUT
| SERIAL_EXCEPTION | SERIAL_IOEXCEPTION.

(** [packet_t]: a byte array and the count of valid bytes in it.  The list
    is the whole array, so its size is the array's capacity. *)
Record packet_t := mk_packet {
  pkt_buffer : list Z;
  pkt_length : Z
}.

(** [packet_information_t]: one sub-packet.  The fields are prefixed because
    [option] and [length] are taken in Rocq. *)
Record packet_information_t := mk_info {
  info_length : Z;
  info_type : Z;
  info_option : Z;
  info_command : Z;
  info_message : list Z
}.

(** Modelled from the spec: the declaration of [packet_information_t] lives
    in the headers of the or_bus library, outside the controller; the byte
    order of the object follows the wire format of the specification,
    [self-length][category][option][command][payload]. *)
Definition info_of_image (img : list Z) : packet_information_t :=
  {| info_length := nth 0 img 0;
     info_type := nth 1 img 0;
     info_option := nth 2 img 0;
     info_command := nth 3 img 0;
     info_message := drop 4 img |}.

Definition image_of_info (p : packet_information_t) : list Z :=
  info_length p :: info_type p :: info_option p :: info_command p
    :: info_message p.

(** [LNG_HEAD_INFORMATION_PACKET]: the four bytes before the payload. *)
Definition LNG_HEAD_INFORMATION_PACKET : Z := 4.

(** The part of the message area that the self-length covers. *)
Definition payload (p : packet_information_t) : list Z :=
  take (Z.to_nat (info_length p - LNG_HEAD_INFORMATION_PACKET)) (info_message p).

(** The descriptor a sub-packet stands for: its header fields and the
    payload bytes that the self-length covers. *)
Definition descriptor (p : packet_information_t) : Z * Z * Z * Z * list Z :=
  (info_length p, info_type p, info_option p, info_command p, payload p).

(** ** The serial port *)

Inductive write_result :=
| Written (n : Z) | WriteSerialException | WriteIOException.

Inductive read_result :=
| Timeout                     (* [waitReadable] returns false *)
| Data (reply : list Z)       (* [read(available())] returns these bytes *)
| ReadSerialException
| ReadIOException.

(** What [open] and the three setters in the [try] block of [start] do. *)
Inductive open_result :=
| Opened (now_open : bool)    (* no exception; [isOpen()] afterwards *)
| OpenIOException             (* caught by [start] *)
| OpenOtherException (e : exn). (* not caught by [start] *)

(** The port is an oracle: it holds the answers the device and the driver
    will give.  A script that has run dry means a silent line (time-outs)
    and writes that succeed in full. *)
Record Serial := mk_serial {
  port_isOpen : bool;
  port_open : open_result;
  port_rx : list read_result;
  port_wr : list write_result
}.

Inductive level := DEBUG | INFO | WARN | ERROR.

(** ** The or_bus library

    The controller calls into the or_bus C library, which is a separate
    code base: the streaming frame decoder [decode_pkgs] with the packet
    [mReceive] it fills, [build_pkg] that wraps a packet into a frame, and a
    few constants.  They are parameters of the development. *)
Class or_bus := {
  orb_decoder : Type;
  decode_pkgs : orb_decoder -> Z -> orb_decoder * bool;
  mReceive_of : orb_decoder -> packet_t;
  build_pkg : packet_t -> list Z;
  LNG_PACKET_HEADER : Z;
  PACKET_REQUEST : Z;
  (* bytes of [message_abstract_u]; the object has four more *)
  sizeof_message : nat;
  (* capacity of the buffer of an outgoing [packet_t] *)
  MAX_BUFF_TX : Z
}.

Section Controller.

Context {callback_data_packet_t : Type} `{or_bus}.

(** What the uninitialised object [info] of [parse_packet] holds before the
    [memcpy] of the iteration that starts at offset [i]. *)
Variable indeterminate : Z -> list Z.

Inductive event :=
| EvLock
| EvUnlock
| EvFlush
| EvWrite (data : list Z)
| EvWaitReadable
| EvRead
| EvCallback (cb : callback_data_packet_t) (opt type command : Z)
             (message : list Z)
| EvLog (lvl : level) (text : string).

Record serial_controller := mk_controller {
  mSerial : Serial;
  mStatus : serial_status_t;
  mStopping : bool;
  hashmap : gmap Z callback_data_packet_t;
  list_send : list packet_information_t;
  orb : orb_decoder;
  trace : list event
}.

Definition set_mSerial (s : Serial) (c : serial_controller) :=
  mk_controller s (mStatus c) (mStopping c) (hashmap c) (list_send c) (orb c) (trace c).
Definition set_mStatus (s : serial_status_t) (c : serial_controller) :=
  mk_controller (mSerial c) s (mStopping c) (hashmap c) (list_send c) (orb c) (trace c).
Definition set_mStopping (b : bool) (c : serial_controller) :=
  mk_controller (mSerial c) (mStatus c) b (hashmap c) (list_send c) (orb c) (trace c).
Definition set_hashmap (m : gmap Z callback_data_packet_t) (c : serial_controller) :=
  mk_controller (mSerial c) (mStatus c) (mStopping c) m (list_send c) (orb c) (trace c).
Definition set_list_send (l : list packet_information_t) (c : serial_controller) :=
  mk_controller (mSerial c) (mStatus c) (mStopping c) (hashmap c) l (orb c) (trace c).
Definition set_orb (d : orb_decoder) (c : serial_controller) :=
  mk_controller (mSerial c) (mStatus c) (mStopping c) (hashmap c) (list_send c) d (trace c).
Definition emit (e : event) (c : serial_controller) :=
  mk_controller (mSerial c) (mStatus c) (mStopping c) (hashmap c) (list_send c) (orb c)
                (trace c ++ [e]).

(** [serial_controller::getStatus] *)
Definition getStatus (c : serial_controller) : serial_status_t := mStatus c.

(** ** [serial_controller::addCallback] *)
Definition addCallback (callback : callback_data_packet_t) (type : Z)
    (c : serial_controller) : bool * serial_controller :=
  match hashmap c !! type with
  | Some _ => (false, c)
  | None => (true, set_hashmap (<[type := callback]> (hashmap c)) c)
  end.

(** ** [serial_controller::parse_packet] *)

Definition sizeof_info : Z := LNG_HEAD_INFORMATION_PACKET + Z.of_nat sizeof_message.

(** [memcpy((unsigned char* ) &info, &receive.buffer[i], n)]: [n] bytes are
    read from offset [i] of the array and written over the first [n] bytes of
    [info]; the rest of [info] keeps what it held.  Reading beyond the array
    or writing beyond the object is undefined. *)
Definition memcpy_info (receive : packet_t) (i n : Z) : outcome packet_information_t :=
  if (i + n <=? Z.of_nat (length (pkt_buffer receive))) && (n <=? sizeof_info) then
    Returns (info_of_image
               (take (Z.to_nat n) (drop (Z.to_nat i) (pkt_buffer receive))
                  ++ drop (Z.to_nat n) (indeterminate i)))
  else Undefined.

(** The body of the [for] loop after the [memcpy]. *)
Definition dispatch (info : packet_information_t) (c : serial_controller)
    : serial_controller :=
  if info_type info =? 0 then
    emit (EvLog DEBUG "Return alive message") c
  else
    match hashmap c !! info_type info with
    | Some callback =>
        emit (EvCallback callback (info_option info) (info_type info)
                (info_command info) (info_message info)) c
    | None => c
    end.

(** [for (int i = 0; i < receive.length; i += receive.buffer[i])] *)
Fixpoint parse_loop (fuel : nat) (receive : packet_t) (i : Z)
    (c : serial_controller) : outcome serial_controller :=
  match fuel with
  | O => OutOfFuel
  | S fuel' =>
      if i <? pkt_length receive then
        match pkt_buffer receive !! Z.to_nat i with
        | None => Undefined
        | Some n =>
            info ← memcpy_info receive i n;
            parse_loop fuel' receive (i + n) (dispatch info c)
        end
      else Returns c
  end.

Definition parse_packet (fuel : nat) (receive : packet_t) (c : serial_controller)
    : outcome (bool * serial_controller) :=
  if 0 <? pkt_length receive then
    c' ← parse_loop fuel receive 0 c;
    Returns (true, set_mStatus SERIAL_OK c')
  else
    Returns (false, set_mStatus SERIAL_EMPTY c).

(** ** Encoding *)

(** The bytes of one sub-packet on the wire: the first [length] bytes of the
    object. *)
Definition encode_info (p : packet_information_t) : list Z :=
  take (Z.to_nat (info_length p)) (image_of_info p).

(** Modelled from the spec: [encoder] belongs to the or_bus library, a
    separate code base.  It lays the sub-packets out one after
    the other, each as [self-length][category][option][command][payload],
    and stops at the first one that would exceed the capacity
    [MAX_BUFF_TX]; it returns how many it has placed, which is what
    [sendSerialFrame] compares with the size of the list. *)
Fixpoint encoder_from (used : Z) (list_send : list packet_information_t)
    : list Z * nat :=
  match list_send with
  | [] => ([], O)
  | p :: rest =>
      if used + info_length p <=? MAX_BUFF_TX then
        let '(bytes, n) := encoder_from (used + info_length p) rest in
        (encode_info p ++ bytes, S n)
      else ([], O)
  end.

Definition encoder (list_send : list packet_information_t) : packet_t * nat :=
  let '(bytes, n) := encoder_from 0 list_send in
  (mk_packet bytes (Z.of_nat (length bytes)), n).

(** Modelled from the spec: [encoderSingle], the same for one sub-packet. *)
Definition encoderSingle (frame : packet_information_t) : packet_t :=
  mk_packet (encode_info frame) (Z.of_nat (length (encode_info frame))).

(** Modelled from the spec: the macro [CREATE_PACKET_RESPONSE(command, type,
    option)] builds a sub-packet without payload. *)
Definition CREATE_PACKET_RESPONSE (command type opt : Z) : packet_information_t :=
  mk_info LNG_HEAD_INFORMATION_PACKET type opt command [].

(** ** Talking to the port *)

Definition set_port_isOpen (b : bool) (c : serial_controller) :=
  set_mSerial (mk_serial b (port_open (mSerial c)) (port_rx (mSerial c))
                 (port_wr (mSerial c))) c.
Definition set_port_rx (rx : list read_result) (c : serial_controller) :=
  set_mSerial (mk_serial (port_isOpen (mSerial c)) (port_open (mSerial c)) rx
                 (port_wr (mSerial c))) c.
Definition set_port_wr (wr : list write_result) (c : serial_controller) :=
  set_mSerial (mk_serial (port_isOpen (mSerial c)) (port_open (mSerial c))
                 (port_rx (mSerial c)) wr) c.

(** [serial_controller::writePacket] *)
Definition writePacket (packet : packet_t) (c : serial_controller)
    : bool * serial_controller :=
  let dataSize := LNG_PACKET_HEADER + pkt_length packet + 1 in
  let c := emit (EvLog DEBUG "To be written") c in
  let BufferTx := build_pkg packet in
  let c := emit (EvWrite (take (Z.to_nat dataSize) BufferTx)) c in
  let answer := match port_wr (mSerial c) with
                | [] => Written dataSize
                | r :: _ => r
                end in
  let c := set_port_wr (tail (port_wr (mSerial c))) c in
  match answer with
  | WriteSerialException =>
      (false, emit (EvLog ERROR "Unable to write serial port")
                (set_mStatus SERIAL_EXCEPTION c))
  | WriteIOException =>
      (false, emit (EvLog ERROR "Unable to write serial port")
                (set_mStatus SERIAL_IOEXCEPTION c))
  | Written written =>
      if written =? dataSize then (true, c)
      else (false, emit (EvLog WARN "Serial write error") c)
  end.

(** The inner [for] of [readPacket]: the reply is fed byte by byte to
    [decode_pkgs] until it reports a complete frame. *)
Fixpoint feed (reply : list Z) (d : orb_decoder) : orb_decoder * bool :=
  match reply with
  | [] => (d, false)
  | data :: rest =>
      let '(d', complete) := decode_pkgs d data in
      if complete then (d', true) else feed rest d'
  end.

(** [serial_controller::readPacket]: the [do ... while(true)] loop, one
    iteration per answer of the port. *)
Fixpoint readPacket_from (rx : list read_result) (c : serial_controller)
    : bool * serial_controller :=
  if mStopping c then (false, set_port_rx rx c)
  else
    let c := emit EvWaitReadable c in
    match rx with
    | [] =>
        (false, emit (EvLog ERROR "Serial timeout connecting")
                  (set_mStatus SERIAL_TIMEOUT (set_port_rx [] c)))
    | Timeout :: rx' =>
        (false, emit (EvLog ERROR "Serial timeout connecting")
                  (set_mStatus SERIAL_TIMEOUT (set_port_rx rx' c)))
    | ReadSerialException :: rx' =>
        (false, emit (EvLog ERROR "Unable to read serial port")
                  (set_mStatus SERIAL_EXCEPTION (set_port_rx rx' (emit EvRead c))))
    | ReadIOException :: rx' =>
        (false, emit (EvLog ERROR "Unable to read serial port")
                  (set_mStatus SERIAL_IOEXCEPTION (set_port_rx rx' (emit EvRead c))))
    | Data reply :: rx' =>
        let c := emit (EvLog DEBUG "Received") (emit EvRead c) in
        let '(d, complete) := feed reply (orb c) in
        let c := set_orb d c in
        if complete then (true, set_port_rx rx' c)
        else readPacket_from rx' c
    end.

Definition readPacket (c : serial_controller) : bool * serial_controller :=
  readPacket_from (port_rx (mSerial c)) c.

(** The local [packet_t empty] of [sendSerialPacket]: only its length is
    set. *)
Definition empty : packet_t := mk_packet [] 0.

(** [serial_controller::sendSerialPacket] *)
Definition sendSerialPacket (packet : packet_t) (c : serial_controller)
    : packet_t * serial_controller :=
  if port_isOpen (mSerial c) then
    let '(_, c) := writePacket packet c in
    let '(complete, c) := readPacket c in
    if complete then (mReceive_of (orb c), c) else (empty, c)
  else (empty, c).

(** [serial_controller::sendSerialFrame(packet_information_t)] *)
Definition sendSerialFrame1 (fuel : nat) (frame : packet_information_t)
    (c : serial_controller) : outcome (bool * serial_controller) :=
  let packet := encoderSingle frame in
  let '(receive, c) := sendSerialPacket packet c in
  parse_packet fuel receive c.

(** [serial_controller::sendSerialFrame(vector<packet_information_t>)] *)
Definition sendSerialFrame (fuel : nat) (list_send : list packet_information_t)
    (c : serial_controller) : outcome (bool * serial_controller) :=
  if negb (length list_send =? 0)%nat then
    let '(packet, n_packet) := encoder list_send in
    if (n_packet =? length list_send)%nat then
      let '(receive, c) := sendSerialPacket packet c in
      parse_packet fuel receive c
    else
      Returns (true, set_mStatus SERIAL_BUFFER_FULL
                       (emit (EvLog ERROR "Buffer FULL") c))
  else Returns (true, c).

(** ** The pending queue *)

(** [serial_controller::addFrame(vector<packet_information_t>)] *)
Definition addFrames (packet : list packet_information_t) (c : serial_controller)
    : serial_controller :=
  let c := emit EvLock c in
  let c := set_list_send (list_send c ++ packet) c in
  emit EvUnlock c.

(** [serial_controller::addFrame(packet_information_t)] *)
Definition addFrame (packet : packet_information_t) (c : serial_controller)
    : serial_controller :=
  let c := emit EvLock c in
  let c := set_list_send (list_send c ++ [packet]) c in
  emit EvUnlock c.

(** [serial_controller::resetList] *)
Definition resetList (c : serial_controller) : serial_controller :=
  let c := emit EvLock c in
  let c := set_list_send [] c in
  emit EvUnlock c.

(** [serial_controller::sendList] *)
Definition sendList (fuel : nat) (c : serial_controller)
    : outcome (bool * serial_controller) :=
  let c := emit EvLock c in
  '(state, c) ← sendSerialFrame fuel (list_send c) c;
  let c := if state : bool then set_list_send [] c else c in
  let c := emit EvUnlock c in
  Returns (state, c).

(** ** Connection *)

(** [serial_controller::isAlive] *)
Definition isAlive (fuel : nat) (c : serial_controller)
    : outcome (bool * serial_controller) :=
  let c := emit EvFlush c in
  sendSerialFrame1 fuel (CREATE_PACKET_RESPONSE 0 0 PACKET_REQUEST) c.

(** [serial_controller::start] *)
Definition start (fuel : nat) (c : serial_controller)
    : outcome (bool * serial_controller) :=
  match port_open (mSerial c) with
  | OpenOtherException e => Throws e
  | OpenIOException =>
      Returns (false, emit (EvLog ERROR "Unable to open serial port") c)
  | Opened now_open =>
      let c := set_port_isOpen now_open c in
      if port_isOpen (mSerial c) then
        let c := emit (EvLog DEBUG "Serial Port correctly initialized") c in
        let c := set_mStopping false c in
        '(alive, c) ← isAlive fuel c;
        if alive : bool then
          let c := emit (EvLog DEBUG "ORBUS Connection started") c in
          Returns (true, emit (EvLog DEBUG "Serial port ready") c)
        else
          Returns (false, emit (EvLog ERROR "ORBUS does not found") c)
      else
        Returns (false, emit (EvLog ERROR "Serial port not opened") c)
  end.

(** ** The sub-packets a frame is walked into

    [parse_packet] hands every sub-packet to its handler as soon as it has
    copied it.  [decode_loop] is the same walk, with the same reads, that
    collects the copies instead; [parse_loop_decode] below shows that
    [parse_loop] is [decode_loop] followed by the dispatch of each copy. *)
Fixpoint decode_loop (fuel : nat) (receive : packet_t) (i : Z)
    : outcome (list packet_information_t) :=
  match fuel with
  | O => OutOfFuel
  | S fuel' =>
      if i <? pkt_length receive then
        match pkt_buffer receive !! Z.to_nat i with
        | None => Undefined
        | Some n =>
            info ← memcpy_info receive i n;
            rest ← decode_loop fuel' receive (i + n);
            Returns (info :: rest)
        end
      else Returns []
  end.

Definition decode (fuel : nat) (receive : packet_t)
    : outcome (list packet_information_t) :=
  decode_loop fuel receive 0.

Definition dispatch_all (infos : list packet_information_t)
    (c : serial_controller) : serial_controller :=
  foldl (fun c info => dispatch info c) c infos.

(** What [info] holds after the [memcpy] when the bytes of [p] lie at offset
    [i]: the bytes of [p], then what the object held before. *)
Definition copied (i : Z) (p : packet_information_t) : packet_information_t :=
  info_of_image (encode_info p
                   ++ drop (Z.to_nat (info_length p)) (indeterminate i)).

Fixpoint copied_from (i : Z) (batch : list packet_information_t)
    : list packet_information_t :=
  match batch with
  | [] => []
  | p :: rest => copied i p :: copied_from (i + info_length p) rest
  end.

(** A descriptor that fits the object: its self-length counts the header
    and a payload that the message area holds. *)
Definition valid (p : packet_information_t) : Prop :=
  LNG_HEAD_INFORMATION_PACKET <= info_length p <= sizeof_info /\
  info_length p - LNG_HEAD_INFORMATION_PACKET <= Z.of_nat (length (info_message p)).

Definition total_length (batch : list packet_information_t) : Z :=
  foldr (fun p acc => info_length p + acc) 0 batch.

(** The events one pass through the loop body appends. *)
Definition dispatch_events (hm : gmap Z callback_data_packet_t)
    (info : packet_information_t) : list event :=
  if info_type info =? 0 then [EvLog DEBUG "Return alive message"]
  else
    match hm !! info_type info with
    | Some callback =>
        [EvCallback callback (info_option info) (info_type info)
           (info_command info) (info_message info)]
    | None => []
    end.

Definition set_trace (tr : list event) (c : serial_controller) :=
  mk_controller (mSerial c) (mStatus c) (mStopping c) (hashmap c) (list_send c)
                (orb c) tr.

(** [e] is the invocation of the handler bound to the category of [p], with
    the fields of [p] and a message that starts with the payload of [p]. *)
Definition invokes (hm : gmap Z callback_data_packet_t)
    (p : packet_information_t) (e : event) : Prop :=
  exists callback message,
    hm !! info_type p = Some callback /\
    e = EvCallback callback (info_option p) (info_type p) (info_command p) message /\
    take (Z.to_nat (info_length p - LNG_HEAD_INFORMATION_PACKET)) message = payload p.

Definition known (hm : gmap Z callback_data_packet_t)
    (p : packet_information_t) : Prop :=
  info_type p <> 0 /\ is_Some (hm !! info_type p).

(** ** Reading the trace *)

Definition is_callback (e : event) : bool :=
  match e with EvCallback _ _ _ _ _ => true | _ => false end.

Definition is_write (e : event) : bool :=
  match e with EvWrite _ => true | _ => false end.

Definition is_mutex (e : event) : bool :=
  match e with EvLock | EvUnlock => true | _ => false end.

(** Log lines that report a fault. *)
Definition is_report (e : event) : bool :=
  match e with EvLog WARN _ | EvLog ERROR _ => true | _ => false end.

Definition callbacks (tr : list event) : list event := List.filter is_callback tr.
Definition transmitted (tr : list event) : list event := List.filter is_write tr.
Definition reports (tr : list event) : list event := List.filter is_report tr.

(** Events of the port and of the log: what [sendSerialPacket] may append. *)
Definition io_event (e : event) : bool :=
  match e with
  | EvWrite _ | EvWaitReadable | EvRead | EvFlush | EvLog _ _ => true
  | _ => false
  end.

(** [c'] is [c] after some port and log activity: the registry, the queue,
    the state of the port and the stop flag are the same, the trace has
    grown by port and log events. *)
Definition io_step (c c' : serial_controller) : Prop :=
  hashmap c' = hashmap c /\
  list_send c' = list_send c /\
  port_isOpen (mSerial c') = port_isOpen (mSerial c) /\
  mStopping c' = mStopping c /\
  exists mid, trace c' = trace c ++ mid /\ Forall (fun e => io_event e = true) mid.

(** The events a call has appended, given the controller before and after. *)
Definition appended (c c' : serial_controller) : list event :=
  drop (length (trace c)) (trace c').


End Controller.

Arguments event : clear implicits.
Arguments serial_controller callback_data_packet_t {_}.

(** ** [uNavInterface::allMotorsFrame] *)

Module uNav.

Section Interface.

(** The two bit-fields of [motor_command_map_t], read back from the byte
    [command_message]; the union is declared in the headers of the or_bus
    library, so the two read-outs are parameters. *)
Variable bitset_motor : Z -> Z.
Variable bitset_command : Z -> Z.

Inductive unav_event :=
| EvMotorFrame (name : string) (opt type command : Z) (message : list Z)
| EvRos (lvl : level) (text : string).

Record uNavInterface := mk_unav {
  mMotorName : list string;           (* [vector<string>] *)
  mMotor : gmap string nat;           (* [map<string, Motor*>], by motor id *)
  ros : list unav_event
}.

Definition log (e : unav_event) (u : uNavInterface) : uNavInterface :=
  mk_unav (mMotorName u) (mMotor u) (ros u ++ [e]).

(** The log lines and motor updates a call has appended. *)
Definition appended (u u' : uNavInterface) : list unav_event :=
  drop (length (ros u)) (ros u').

(** An [int] converted to [size_t] for the comparison with [size()] and for
    the argument of [at]. *)
Definition to_size_t (n : Z) : Z := n mod 2 ^ 64.

Definition allMotorsFrame (opt type command : Z) (message : list Z)
    (u : uNavInterface) : outcome uNavInterface :=
  let number_motor := bitset_motor command in
  let u := log (EvRos DEBUG "Frame") u in
  if (0 <=? number_motor)
     || (to_size_t number_motor <? Z.of_nat (length (mMotorName u))) then
    match mMotorName u !! Z.to_nat (to_size_t number_motor) with
    | None => Throws out_of_range                     (* [at] *)
    | Some name =>
        match mMotor u !! name with
        | None => Undefined                           (* null [Motor*] *)
        | Some _ =>
            Returns (log (EvMotorFrame name opt type (bitset_command command)
                            message) u)
        end
    end
  else
    Returns (log (EvRos WARN "Error enything motor is initialized for Motor") u).

End Interface.

End uNav.

(** ** A small link for the examples

    One instance of the or_bus parameters, used to run the controller on
    concrete bytes: a frame on the wire is a count followed by that many
    bytes and a closing zero. *)
Module Demo.

Definition decoder : Type := option nat * list Z * packet_t.

Definition decode_byte (d : decoder) (data : Z) : decoder * bool :=
  let '(expect, acc, done) := d in
  match expect with
  | None =>
      if data =? 0 then ((None, [], mk_packet [] 0), true)
      else ((Some (Z.to_nat data), [], done), false)
  | Some (S O) =>
      ((None, [], mk_packet (acc ++ [data]) (Z.of_nat (length acc) + 1)), true)
  | Some (S k) => ((Some k, acc ++ [data], done), false)
  | Some O => ((None, [], done), false)
  end.

Definition frame_of (p : packet_t) : list Z :=
  pkt_length p :: take (Z.to_nat (pkt_length p)) (pkt_buffer p) ++ [0].

#[local] Instance link : or_bus := {|
  orb_decoder := decoder;
  decode_pkgs := decode_byte;
  mReceive_of := fun d => snd d;
  build_pkg := frame_of;
  LNG_PACKET_HEADER := 1;
  PACKET_REQUEST := 82;
  sizeof_message := 8;
  MAX_BUFF_TX := 12
|}.

(** Handlers are named by strings; the stack object [info] holds 170s. *)
Definition stale (i : Z) : list Z := replicate 12 170.

Definition idle_port : Serial := mk_serial true (Opened true) [] [].

Definition fresh (hm : gmap Z string) (port : Serial) : serial_controller string :=
  mk_controller port SERIAL_OK false hm [] (None, [], mk_packet [] 0) [].

Definition handlers : gmap Z string := <[5 := "five"%string]> (<[7 := "seven"%string]> ∅).

Definition controller : serial_controller string := fresh handlers idle_port.

Definition batch : list packet_information_t :=
  [mk_info 5 5 0 1 [7]; mk_info 4 7 82 2 []].

(** A port that answers the probe, and the controller on it. *)
Definition answering_port : Serial :=
  mk_serial true (Opened true) [Data [4; 4; 0; 82; 0; 0]] [].

Definition answered : serial_controller string := fresh handlers answering_port.

(** The controller with [batch] pending on a silent port. *)
Definition pending : serial_controller string := set_list_send batch controller.

(** One layout of [motor_command_map_t]: motor in the low four bits. *)
Definition low_nibble (command : Z) : Z := Z.land command 15.
Definition high_nibble (command : Z) : Z := Z.shiftr command 4.

Definition two_motors : uNav.uNavInterface :=
  uNav.mk_unav ["motor_0"; "motor_1"]%string
    (<["motor_0"%string := 0%nat]> (<["motor_1"%string := 1%nat]> ∅)) [].

End Demo.

(** ** The interfaces built on the controller

    [GenericInterface] and [uNavInterface] hold a pointer to one shared
    controller.  Their methods are functions of the interface object and of
    the controller, which is passed in and handed back, so that what one
    caller leaves in the queue is what the next one finds. *)
Module ORInterface.

(** The member functions this program registers as handlers. *)
Inductive handler := SystemFrame | AllMotorsFrame.

(** [orbus_interface::BoardTime], over the type of its five numbers. *)
Record BoardTime (V : Type) := mk_time {
  idle : V; ADC : V; led : V; serial_parser : V; I2C : V
}.
Arguments mk_time {V}.
Arguments idle {V}. Arguments ADC {V}. Arguments led {V}.
Arguments serial_parser {V}. Arguments I2C {V}.

(** The system messages of or_bus, as [GenericInterface] uses them: the
    category and command constants, the array [message.system.service] and
    the structure [message.system.time] read out of the bytes of a message.
    The labels of one [switch] are distinct, or it would not compile. *)
Class or_bus_system := {
  HASHMAP_SYSTEM : Z;
  HASHMAP_MOTOR : Z;
  SYSTEM_CODE_DATE : Z;
  SYSTEM_CODE_VERSION : Z;
  SYSTEM_CODE_AUTHOR : Z;
  SYSTEM_CODE_BOARD_TYPE : Z;
  SYSTEM_CODE_BOARD_NAME : Z;
  SYSTEM_TIME : Z;
  SYSTEM_RESET : Z;
  system_labels :
    NoDup [SYSTEM_CODE_DATE; SYSTEM_CODE_VERSION; SYSTEM_CODE_AUTHOR;
           SYSTEM_CODE_BOARD_TYPE; SYSTEM_CODE_BOARD_NAME; SYSTEM_TIME];
  service_of : list Z -> list Z;
  time_value : Type;
  time_zero : time_value;
  system_time_of : list Z -> BoardTime time_value
}.

(** The levels of [diagnostic_msgs::DiagnosticStatus]. *)
Inductive DiagnosticStatus := OK | WARN_ | ERROR_ | STALE.

(** What an entry of a diagnostic status holds: a string, or a number cast
    to [int]. *)
Inductive stat_value {V : Type} :=
| StatString (s : string)
| StatInt (v : V).
Arguments stat_value V : clear implicits.

Section Generic.

Context `{or_bus} `{or_bus_system}.
Variable indeterminate : Z -> list Z.
Variable bitset_motor : Z -> Z.
Variable bitset_command : Z -> Z.

Inductive iface_event :=
| EvRos (lvl : level) (text : string)
| EvPublish (msg : BoardTime time_value)
| EvForceUpdate.

Record GenericInterface := mk_generic {
  serial_status : bool;
  code_date : string;
  code_version : string;
  code_author : string;
  code_board_type : string;
  code_board_name : string;
  msg : BoardTime time_value;
  out : list iface_event
}.

Definition note (e : iface_event) (g : GenericInterface) : GenericInterface :=
  mk_generic (serial_status g) (code_date g) (code_version g) (code_author g)
    (code_board_type g) (code_board_name g) (msg g) (out g ++ [e]).
Definition set_serial_status (b : bool) (g : GenericInterface) :=
  mk_generic b (code_date g) (code_version g) (code_author g)
    (code_board_type g) (code_board_name g) (msg g) (out g).
Definition set_code_date (s : string) (g : GenericInterface) :=
  mk_generic (serial_status g) s (code_version g) (code_author g)
    (code_board_type g) (code_board_name g) (msg g) (out g).
Definition set_code_version (s : string) (g : GenericInterface) :=
  mk_generic (serial_status g) (code_date g) s (code_author g)
    (code_board_type g) (code_board_name g) (msg g) (out g).
Definition set_code_author (s : string) (g : GenericInterface) :=
  mk_generic (serial_status g) (code_date g) (code_version g) s
    (code_board_type g) (code_board_name g) (msg g) (out g).
Definition set_code_board_type (s : string) (g : GenericInterface) :=
  mk_generic (serial_status g) (code_date g) (code_version g) (code_author g)
    s (code_board_name g) (msg g) (out g).
Definition set_code_board_name (s : string) (g : GenericInterface) :=
  mk_generic (serial_status g) (code_date g) (code_version g) (code_author g)
    (code_board_type g) s (msg g) (out g).
Definition set_msg (m : BoardTime time_value) (g : GenericInterface) :=
  mk_generic (serial_status g) (code_date g) (code_version g) (code_author g)
    (code_board_type g) (code_board_name g) m (out g).

(** The bytes of a C string: what lies before the first zero; none when
    the array holds no zero. *)
Fixpoint c_string (bytes : list Z) : option (list Z) :=
  match bytes with
  | [] => None
  | b :: rest => if b =? 0 then Some [] else (b ::.) <$> c_string rest
  end.

Definition string_of_bytes (bytes : list Z) : string :=
  foldr (fun b s => String (Ascii.ascii_of_nat (Z.to_nat b)) s) EmptyString bytes.

(** [string((char* ) message.system.service)]: the constructor reads up to
    the first zero; past the end of the array the read is undefined. *)
Definition service_string (message : list Z) : outcome string :=
  match c_string (service_of message) with
  | Some bytes => Returns (string_of_bytes bytes)
  | None => Undefined
  end.

(** [GenericInterface::systemFrame] *)
Definition systemFrame (opt type command : Z) (message : list Z)
    (g : GenericInterface) : outcome GenericInterface :=
  let g := note (EvRos DEBUG "Frame") g in
  if command =? SYSTEM_CODE_DATE then
    s ← service_string message; Returns (set_code_date s g)
  else if command =? SYSTEM_CODE_VERSION then
    s ← service_string message; Returns (set_code_version s g)
  else if command =? SYSTEM_CODE_AUTHOR then
    s ← service_string message; Returns (set_code_author s g)
  else if command =? SYSTEM_CODE_BOARD_TYPE then
    s ← service_string message; Returns (set_code_board_type s g)
  else if command =? SYSTEM_CODE_BOARD_NAME then
    s ← service_string message; Returns (set_code_board_name s g)
  else if command =? SYSTEM_TIME then
    let g := set_msg (system_time_of message) g in
    Returns (note (EvPublish (msg g)) g)
  else
    Returns (note (EvRos ERROR "System message does not implemented") g).

(** The interface object: the members of [GenericInterface] and, once the
    constructor of [uNavInterface] has built them, the motor containers. *)
Definition object : Type := GenericInterface * option uNav.uNavInterface.

(** The handlers run.  The controller invokes a handler in the middle of
    [parse_packet]; neither handler touches the controller, so their effect
    on the object is that of running them, in order, on the invocations the
    controller has recorded.  A motor frame for an object whose motor part
    is not built yet is undefined. *)
Fixpoint deliver (events : list (event handler)) (obj : object) : outcome object :=
  match events with
  | [] => Returns obj
  | EvCallback SystemFrame opt type command message :: rest =>
      g ← systemFrame opt type command message obj.1;
      deliver rest (g, obj.2)
  | EvCallback AllMotorsFrame opt type command message :: rest =>
      match obj.2 with
      | None => Undefined
      | Some u =>
          u ← uNav.allMotorsFrame bitset_motor bitset_command opt type command message u;
          deliver rest (obj.1, Some u)
      end
  | _ :: rest => deliver rest obj
  end.

(** [mSerial->sendList()] as the object lives it: the controller makes the
    round trip, and the handlers it has invoked meanwhile have run. *)
Definition mSerial_sendList (fuel : nat) (obj : object)
    (c : serial_controller handler)
    : outcome (bool * object * serial_controller handler) :=
  '(sent, c') ← sendList indeterminate fuel c;
  obj ← deliver (appended c c') obj;
  Returns (sent, obj, c').

(** [::tolower] in the C locale, and [std::transform] of it over a string. *)
Definition tolower (a : Ascii.ascii) : Ascii.ascii :=
  let n := Ascii.nat_of_ascii a in
  if ((65 <=? n) && (n <=? 90))%nat then Ascii.ascii_of_nat (n + 32) else a.

Fixpoint transform_tolower (s : string) : string :=
  match s with
  | EmptyString => EmptyString
  | String a rest => String (tolower a) (transform_tolower rest)
  end.

Definition nl : string := String (Ascii.ascii_of_nat 10) EmptyString.

Definition info_text (g : GenericInterface) : string :=
  nl +:+ "Name board: " +:+ code_board_name g +:+ nl
     +:+ "Board type: " +:+ code_board_type g +:+ nl
     +:+ "Author: " +:+ code_author g +:+ nl
     +:+ "Version: " +:+ code_version g +:+ nl
     +:+ "Build: " +:+ code_date g +:+ nl.

Definition help_text (g : GenericInterface) : string :=
  nl +:+ " List of commands availabes: " +:+ nl
     +:+ "* info  - information about this board " +:+ nl
     +:+ "* reset - software reset of " +:+ code_board_name g +:+ nl
     +:+ "* help  - this help.".

(** [GenericInterface::service_Callback]: the request and the response are
    passed by reference; the call returns its value, the request as it has
    rewritten it, the response, the object and the controller. *)
Definition service_Callback (fuel : nat) (service information : string)
    (obj : object) (c : serial_controller handler)
    : outcome (bool * string * string * object * serial_controller handler) :=
  let service := transform_tolower service in
  if String.eqb service "info" then
    Returns (true, service, info_text obj.1, obj, c)
  else if String.eqb service "reset" then
    let frame_reset := CREATE_PACKET_RESPONSE SYSTEM_RESET HASHMAP_SYSTEM PACKET_REQUEST in
    '(_, obj, c) ← mSerial_sendList fuel obj (addFrame frame_reset c);
    Returns (true, service, information, obj, c)
  else
    Returns (true, service, help_text obj.1, obj, c).



(** [diagnostic_updater::DiagnosticStatusWrapper], as [run] fills it. *)
Record DiagnosticStatusWrapper := mk_stat {
  values : list (string * stat_value time_value);
  summary : option (DiagnosticStatus * string)
}.

Definition stat_add (key : string) (v : stat_value time_value)
    (stat : DiagnosticStatusWrapper) : DiagnosticStatusWrapper :=
  mk_stat (values stat ++ [(key, v)]) (summary stat).

(** [GenericInterface::run] *)
Definition run (fuel : nat) (stat : DiagnosticStatusWrapper)
    (obj : object) (c : serial_controller handler)
    : outcome (DiagnosticStatusWrapper * object * serial_controller handler) :=
  let obj := (note (EvRos DEBUG "DIAGNOSTIC Generic interface I'm here!") obj.1, obj.2) in
  let frame := CREATE_PACKET_RESPONSE SYSTEM_TIME HASHMAP_SYSTEM PACKET_REQUEST in
  '(sent, obj, c) ← mSerial_sendList fuel obj (addFrame frame c);
  let g := if sent : bool
           then note (EvRos DEBUG "Request Diagnostic COMPLETED") obj.1
           else note (EvRos ERROR "Unable to receive packet from uNav") obj.1 in
  let stat := stat_add "Name board" (StatString (code_board_name g)) stat in
  let stat := stat_add "Type board" (StatString (code_board_type g)) stat in
  let stat := stat_add "Author" (StatString (code_author g)) stat in
  let stat := stat_add "Version" (StatString (code_version g)) stat in
  let stat := stat_add "Build" (StatString (code_date g)) stat in
  let stat := stat_add "Idle (%)" (StatInt (idle (msg g))) stat in
  let stat := stat_add "ADC (nS)" (StatInt (ADC (msg g))) stat in
  let stat := stat_add "LED (nS)" (StatInt (led (msg g))) stat in
  let stat := stat_add "Serial parser (nS)" (StatInt (serial_parser (msg g))) stat in
  let stat := stat_add "I2C (nS)" (StatInt (I2C (msg g))) stat in
  Returns (mk_stat (values stat) (Some (OK, "Board ready!"%string)), (g, obj.2), c).

End Generic.

(** *** [uNavInterface]: the motors *)

(** A value on the parameter server: a string, or something else. *)
Inductive param_value := PString (s : string) | PNotString.

Definition NUM_MOTORS : nat := 2.

(** One pass through the loop of the constructor of [uNavInterface]. *)
Definition init_motor (st : gmap string param_value * uNav.uNavInterface) (i : nat)
    : gmap string param_value * uNav.uNavInterface :=
  let '(params, u) := st in
  let name := "motor_" +:+ pretty i in
  let '(params, motor_name) :=
    match params !! (name +:+ "/name_joint") with
    | Some (PString joint) => (params, joint)
    | Some PNotString => (params, ""%string)
    | None => (<[name +:+ "/name_joint" := PString name]> params, name)
    end in
  let u := uNav.log (uNav.EvRos INFO ("Motor name: " +:+ motor_name)) u in
  (params,
   uNav.mk_unav (uNav.mMotorName u ++ [motor_name])
     (<[motor_name := i]> (uNav.mMotor u)) (uNav.ros u)).

(** The loop [for (i = 0; i < NUM_MOTORS; i++)] of the constructor, on the
    empty containers. *)
Definition init_motors (params : gmap string param_value)
    : gmap string param_value * uNav.uNavInterface :=
  foldl init_motor (params, uNav.mk_unav [] ∅ []) (seq 0 NUM_MOTORS).

(** [hardware_interface::InterfaceResources] and [ControllerInfo]; the set
    of resources is listed in the order of iteration. *)
Record InterfaceResources := mk_resources {
  hardware_interface : string;
  resources : list string
}.

Record ControllerInfo := mk_info_ctl {
  name : string;
  type : string;
  claimed_resources : list InterfaceResources
}.

(** The resources of [claimed_resources.front()]. *)
Definition first_resources (it : ControllerInfo) : list string :=
  match claimed_resources it with
  | [] => []
  | iface_res :: _ => resources iface_res
  end.

(** [mMotor[res]->switchController(type)] for each resource of one
    interface; [calls] collects (motor, type). *)
Fixpoint switch_resources (ctl_name how type : string) (res : list string)
    (st : list (nat * string) * uNav.uNavInterface)
    : outcome (list (nat * string) * uNav.uNavInterface) :=
  match res with
  | [] => Returns st
  | r :: rest =>
      let '(calls, u) := st in
      let u := uNav.log (uNav.EvRos INFO (ctl_name +:+ "[" +:+ r +:+ "] " +:+ how)) u in
      match uNav.mMotor u !! r with
      | None => Undefined                       (* a null [Motor*] is created and used *)
      | Some motor => switch_resources ctl_name how type rest (calls ++ [(motor, type)], u)
      end
  end.

(** One of the two loops over a list of controllers; [disable] tells the
    stop loop from the start loop. *)
Fixpoint switch_list (disable : bool) (controllers : list ControllerInfo)
    (st : list (nat * string) * uNav.uNavInterface)
    : outcome (list (nat * string) * uNav.uNavInterface) :=
  match controllers with
  | [] => Returns st
  | it :: rest =>
      match claimed_resources it with
      | [] => Undefined                         (* [front()] of an empty vector *)
      | iface_res :: _ =>
          st ← switch_resources (name it) (if disable then "STOP" else "START")
                 (if disable then "disable" else type it) (resources iface_res) st;
          switch_list disable rest st
      end
  end.

(** [uNavInterface::doSwitch] *)
Definition doSwitch (start_list stop_list : list ControllerInfo)
    (u : uNav.uNavInterface) : outcome (list (nat * string) * uNav.uNavInterface) :=
  st ← switch_list true stop_list ([], u);
  switch_list false start_list st.

End ORInterface.

(** ** [UNAVHardware::writeCommandsToHardware]: the velocity reference *)
Module UNAVHardware.

(** [(motor_control_t) x] for the 16 bit signed [motor_control_t]. *)
Definition to_motor_control_t (x : Z) : Z := (x + 2 ^ 15) mod 2 ^ 16 - 2 ^ 15.

(** The body of the loop between [long int velocity_long = ...] and the end
    of the saturation.  [command] is [(long int) joints_[i].velocity_command],
    the command cut to an integer, and [velocity] is what the uninitialised
    variable of that name holds; the result is its value after the [if].
    [LONG_MAX] bounds the product. *)
Definition velocity_reference (LONG_MAX command velocity : Z) : outcome Z :=
  let velocity_long := command * 1000 in
  if (velocity_long <? - LONG_MAX - 1) || (LONG_MAX <? velocity_long) then Undefined
  else if velocity_long >? 32767 then Returns 32767
  else if velocity_long <? -32768 then Returns velocity
  else Returns (to_motor_control_t velocity_long).

End UNAVHardware.

(** ** The small link, for the interfaces *)
Module DemoBoard.

(** The link of [Demo], with room for the five requests of the constructor. *)
#[local] Instance link : or_bus := {|
  orb_decoder := Demo.decoder;
  decode_pkgs := Demo.decode_byte;
  mReceive_of := fun d => snd d;
  build_pkg := Demo.frame_of;
  LNG_PACKET_HEADER := 1;
  PACKET_REQUEST := 82;
  sizeof_message := 8;
  MAX_BUFF_TX := 64
|}.

#[local] Instance system : ORInterface.or_bus_system := {|
  ORInterface.HASHMAP_SYSTEM := 5;
  ORInterface.HASHMAP_MOTOR := 7;
  ORInterface.SYSTEM_CODE_DATE := 1;
  ORInterface.SYSTEM_CODE_VERSION := 2;
  ORInterface.SYSTEM_CODE_AUTHOR := 3;
  ORInterface.SYSTEM_CODE_BOARD_TYPE := 4;
  ORInterface.SYSTEM_CODE_BOARD_NAME := 5;
  ORInterface.SYSTEM_TIME := 6;
  ORInterface.SYSTEM_RESET := 9;
  ORInterface.system_labels :=
    ltac:(repeat constructor; rewrite ?elem_of_cons, ?elem_of_nil; lia);
  ORInterface.service_of := fun message => take 8 message;
  ORInterface.time_value := Z;
  ORInterface.time_zero := 0;
  ORInterface.system_time_of := fun message =>
    ORInterface.mk_time (nth 0 message 0) (nth 1 message 0) (nth 2 message 0)
      (nth 3 message 0) (nth 4 message 0)
|}.

Definition board : ORInterface.object :=
  (ORInterface.mk_generic true "Unknown" "Unknown" "Unknown" "Unknown" "uNav"
     (ORInterface.mk_time 0 0 0 0 0) [], Some Demo.two_motors).

Definition silent : serial_controller ORInterface.handler :=
  mk_controller Demo.idle_port SERIAL_OK false ∅ [] (None, [], mk_packet [] 0) [].

(** The silent controller with [systemFrame] registered. *)
Definition registered : serial_controller ORInterface.handler :=
  set_hashmap (<[5 := ORInterface.SystemFrame]> ∅) silent.

(** A reply that carries the version string "1.0". *)
Definition version_reply : packet_t := mk_packet [8; 5; 0; 2; 49; 46; 48; 0] 8.
Definition version_packet : packet_information_t := mk_info 8 5 0 2 [49; 46; 48; 0].

Definition joint (res : list string) (ctl type : string) : ORInterface.ControllerInfo :=
  ORInterface.mk_info_ctl ctl type [ORInterface.mk_resources "velocity" res].

End DemoBoard.

(** * Properties *)

Section Walk.

Context {callback_data_packet_t : Type} `{or_bus}.
Variable indeterminate : Z -> list Z.


(** ** The walk of [parse_packet] and the sub-packets it copies *)

Lemma parse_loop_decode fuel receive : forall i (c : serial_controller callback_data_packet_t),
  parse_loop indeterminate fuel receive i c
  = infos ← decode_loop indeterminate fuel receive i; Returns (dispatch_all infos c).
Proof.
  induction fuel as [|fuel IH]; intros i c; simpl; [done|].
  destruct (i <? pkt_length receive); [|done].
  destruct (pkt_buffer receive !! Z.to_nat i) as [n|]; [|done].
  destruct (memcpy_info indeterminate receive i n) as [info| | |]; simpl; try done.
  rewrite IH.
  by destruct (decode_loop indeterminate fuel receive (i + n)).
Qed.

Lemma parse_packet_decode fuel receive (c : serial_controller callback_data_packet_t) :
  parse_packet indeterminate fuel receive c
  = if 0 <? pkt_length receive then
      infos ← decode indeterminate fuel receive;
      Returns (true, set_mStatus SERIAL_OK (dispatch_all infos c))
    else Returns (false, set_mStatus SERIAL_EMPTY c).
Proof.
  unfold parse_packet, decode. destruct (0 <? pkt_length receive); [|done].
  rewrite parse_loop_decode.
  by destruct (decode_loop indeterminate fuel receive 0).
Qed.

Lemma total_length_app (l k : list packet_information_t) :
  total_length (l ++ k) = total_length l + total_length k.
Proof. induction l as [|p l IH]; simpl; [done|]. rewrite IH. lia. Qed.

Lemma total_length_nonneg (batch : list packet_information_t) :
  Forall (fun p => 0 <= info_length p) batch -> 0 <= total_length batch.
Proof. induction 1; simpl; lia. Qed.

Lemma valid_nonneg (batch : list packet_information_t) :
  Forall valid batch -> Forall (fun p => 0 <= info_length p) batch.
Proof.
  intros Hv. eapply Forall_impl; [exact Hv|]. intros p [[Hlo _] _].
  unfold LNG_HEAD_INFORMATION_PACKET in Hlo. lia.
Qed.

(** The wire bytes of a valid sub-packet: the four header bytes, then the
    payload. *)
Lemma encode_info_layout p :
  valid p ->
  encode_info p
  = [info_length p; info_type p; info_option p; info_command p] ++ payload p.
Proof.
  intros [[Hlo _] _]. unfold encode_info, payload, image_of_info.
  unfold LNG_HEAD_INFORMATION_PACKET in *.
  replace (Z.to_nat (info_length p)) with (4 + Z.to_nat (info_length p - 4))%nat by lia.
  reflexivity.
Qed.

Lemma payload_length p :
  valid p -> length (payload p) = Z.to_nat (info_length p - LNG_HEAD_INFORMATION_PACKET).
Proof.
  intros [_ Hmsg]. unfold payload. rewrite length_take. lia.
Qed.

Lemma encode_info_length p :
  valid p -> length (encode_info p) = Z.to_nat (info_length p).
Proof.
  intros Hv. rewrite (encode_info_layout p Hv), length_app, (payload_length p Hv).
  destruct Hv as [[Hlo _] _]. unfold LNG_HEAD_INFORMATION_PACKET in *. simpl. lia.
Qed.

(** The copy of a valid sub-packet stands for the same descriptor, whatever
    the object held before. *)
Lemma descriptor_copied i p : valid p -> descriptor (copied indeterminate i p) = descriptor p.
Proof.
  intros Hv. unfold copied. rewrite (encode_info_layout p Hv).
  unfold descriptor, info_of_image. simpl. f_equal.
  unfold payload at 1. simpl. rewrite drop_0.
  rewrite take_app_le by (rewrite (payload_length p Hv); lia).
  rewrite take_ge by (rewrite (payload_length p Hv); lia).
  reflexivity.
Qed.

Lemma memcpy_info_encoded receive done p rest :
  valid p ->
  pkt_buffer receive = done ++ encode_info p ++ rest ->
  memcpy_info indeterminate receive (Z.of_nat (length done)) (info_length p)
  = Returns (copied indeterminate (Z.of_nat (length done)) p).
Proof.
  intros Hv Hbuf. unfold memcpy_info, copied.
  pose proof (encode_info_length p Hv) as Hlen.
  destruct Hv as [[Hlo Hhi] _]. unfold LNG_HEAD_INFORMATION_PACKET in Hlo.
  rewrite Hbuf, !length_app, Hlen.
  rewrite (proj2 (Z.leb_le _ _)) by lia.
  rewrite (proj2 (Z.leb_le _ _)) by lia. simpl.
  rewrite Nat2Z.id, drop_app_length.
  rewrite take_app_le by lia. rewrite take_ge by lia. reflexivity.
Qed.

Lemma decode_loop_batch batch : forall fuel receive done rest,
  Forall valid batch ->
  pkt_buffer receive = done ++ flat_map encode_info batch ++ rest ->
  pkt_length receive = Z.of_nat (length done) + total_length batch ->
  (length batch < fuel)%nat ->
  decode_loop indeterminate fuel receive (Z.of_nat (length done))
  = Returns (copied_from indeterminate (Z.of_nat (length done)) batch).
Proof.
  induction batch as [|p batch IH]; intros fuel receive done rest Hv Hbuf Hlen Hfuel.
  - destruct fuel as [|fuel]; [simpl in Hfuel; lia|]. simpl in *.
    rewrite (proj2 (Z.ltb_ge _ _)) by lia. reflexivity.
  - destruct fuel as [|fuel]; [simpl in Hfuel; lia|].
    inversion Hv as [|? ? Hp Hrest]; subst.
    pose proof (total_length_nonneg batch (valid_nonneg batch Hrest)) as Hnn.
    pose proof (encode_info_length p Hp) as Hplen.
    pose proof (encode_info_layout p Hp) as Hlay.
    pose proof Hp as [[Hlo Hhi] _]. unfold LNG_HEAD_INFORMATION_PACKET in Hlo.
    simpl in Hbuf, Hlen, Hfuel. rewrite <- app_assoc in Hbuf.
    cbn [decode_loop].
    rewrite (proj2 (Z.ltb_lt _ _)) by lia.
    rewrite Nat2Z.id.
    assert (pkt_buffer receive !! length done = Some (info_length p)) as ->.
    { rewrite Hbuf, lookup_app_r by lia. rewrite Nat.sub_diag, Hlay. reflexivity. }
    rewrite (memcpy_info_encoded receive done p _ Hp Hbuf). simpl.
    replace (Z.of_nat (length done) + info_length p)
      with (Z.of_nat (length (done ++ encode_info p)))
      by (rewrite length_app, Hplen; lia).
    rewrite (IH fuel receive (done ++ encode_info p) rest Hrest).
    + reflexivity.
    + rewrite Hbuf, <- app_assoc. reflexivity.
    + rewrite length_app, Hplen. lia.
    + lia.
Qed.

(** ** What the loop body appends to the trace *)

Lemma dispatch_set_trace info (c : serial_controller callback_data_packet_t) :
  dispatch info c = set_trace (trace c ++ dispatch_events (hashmap c) info) c.
Proof.
  unfold dispatch, dispatch_events, set_trace, emit. destruct c as [s st sp hm ls d tr]; simpl.
  destruct (info_type info =? 0); [done|].
  destruct (hm !! info_type info); [done|]. by rewrite app_nil_r.
Qed.

Lemma dispatch_all_set_trace infos : forall c : serial_controller callback_data_packet_t,
  dispatch_all infos c
  = set_trace (trace c ++ flat_map (dispatch_events (hashmap c)) infos) c.
Proof.
  induction infos as [|info infos IH]; intros c.
  - destruct c; unfold set_trace; simpl. by rewrite app_nil_r.
  - unfold dispatch_all in *. simpl. rewrite IH, dispatch_set_trace.
    unfold set_trace; simpl. by rewrite <- app_assoc.
Qed.

(** ** Encoding *)

Lemma flat_map_encode_length batch :
  Forall valid batch ->
  Z.of_nat (length (flat_map encode_info batch)) = total_length batch.
Proof.
  induction 1 as [|p batch Hp _ IH]; simpl; [done|].
  rewrite length_app, (encode_info_length p Hp), Nat2Z.inj_add, IH.
  destruct Hp as [[Hlo _] _]. unfold LNG_HEAD_INFORMATION_PACKET in Hlo. lia.
Qed.

Lemma encoder_from_fits batch : forall used,
  Forall (fun p => 0 <= info_length p) batch ->
  used + total_length batch <= MAX_BUFF_TX ->
  encoder_from used batch = (flat_map encode_info batch, length batch).
Proof.
  induction batch as [|p batch IH]; intros used Hnn Hfit; simpl; [done|].
  inversion Hnn as [|? ? Hp Hrest]; subst. simpl in Hfit.
  pose proof (total_length_nonneg batch Hrest).
  rewrite (proj2 (Z.leb_le _ _)) by lia.
  rewrite IH by (trivial || lia). reflexivity.
Qed.

Lemma encoder_from_overflow batch : forall used,
  Forall (fun p => 0 <= info_length p) batch ->
  used <= MAX_BUFF_TX ->
  MAX_BUFF_TX < used + total_length batch ->
  (snd (encoder_from used batch) < length batch)%nat.
Proof.
  induction batch as [|p batch IH]; intros used Hnn Hused Hover; simpl in *; [lia|].
  inversion Hnn as [|? ? Hp Hrest]; subst.
  destruct (used + info_length p <=? MAX_BUFF_TX) eqn:Hfit; simpl; [|lia].
  apply Z.leb_le in Hfit.
  specialize (IH (used + info_length p) Hrest Hfit).
  destruct (encoder_from (used + info_length p) batch) as [bytes n]; simpl in *.
  assert (n < length batch)%nat by (apply IH; lia). lia.
Qed.

End Walk.

(** * The codec *)

Section Codec.

Context {callback_data_packet_t : Type} `{or_bus}.
Variable indeterminate : Z -> list Z.

Lemma encoder_fits batch :
  Forall valid batch ->
  total_length batch <= MAX_BUFF_TX ->
  encoder batch
  = (mk_packet (flat_map encode_info batch) (total_length batch), length batch).
Proof.
  intros Hv Hfit. unfold encoder.
  rewrite (encoder_from_fits batch 0 (valid_nonneg batch Hv)) by lia.
  by rewrite flat_map_encode_length.
Qed.

(** C8: a batch of one or more valid descriptors that fits the frame is
    encoded whole, each sub-packet laid out as
    [self-length][category][option][command][payload], and the walk of
    [parse_packet] over the encoded packet copies out sub-packets that stand
    for exactly the descriptors of the batch, in order; [parse_packet] then
    returns true after dispatching these copies. *)
Theorem decode_encode_roundtrip (batch : list packet_information_t) (fuel : nat)
    (c : serial_controller callback_data_packet_t) :
  batch <> [] ->
  Forall valid batch ->
  total_length batch <= MAX_BUFF_TX ->
  (length batch < fuel)%nat ->
  exists packet infos,
    encoder batch = (packet, length batch) /\
    pkt_buffer packet = flat_map encode_info batch /\
    Forall (fun p => encode_info p
                     = [info_length p; info_type p; info_option p; info_command p]
                         ++ payload p) batch /\
    decode indeterminate fuel packet = Returns infos /\
    map descriptor infos = map descriptor batch /\
    parse_packet indeterminate fuel packet c
    = Returns (true, set_mStatus SERIAL_OK (dispatch_all infos c)).
Proof.
  intros Hne Hv Hfit Hfuel.
  exists (mk_packet (flat_map encode_info batch) (total_length batch)),
         (copied_from indeterminate 0 batch).
  assert (decode indeterminate fuel
            (mk_packet (flat_map encode_info batch) (total_length batch))
          = Returns (copied_from indeterminate 0 batch)) as Hdec.
  { unfold decode.
    apply (decode_loop_batch indeterminate batch fuel _ [] []); simpl; auto.
    by rewrite app_nil_r. }
  split; [by apply encoder_fits|].
  split; [done|].
  split; [eapply Forall_impl; [exact Hv|]; apply encode_info_layout|].
  split; [exact Hdec|].
  split.
  - clear Hdec Hfit Hfuel Hne. generalize 0.
    induction Hv as [|p batch Hp _ IH]; intros i; simpl; [done|].
    by rewrite (descriptor_copied indeterminate i p Hp), IH.
  - rewrite parse_packet_decode, Hdec. simpl.
    destruct batch as [|p batch]; [done|].
    inversion Hv as [|? ? [[Hlo _] _] Hrest]; subst.
    pose proof (total_length_nonneg batch (valid_nonneg batch Hrest)).
    unfold LNG_HEAD_INFORMATION_PACKET in Hlo. simpl.
    by rewrite (proj2 (Z.ltb_lt _ _)) by lia.
Qed.

End Codec.

Lemma decode_encode_roundtrip_witness :
  exists packet infos,
    encoder (H := Demo.link) Demo.batch = (packet, 2%nat) /\
    pkt_buffer packet = [5; 5; 0; 1; 7; 4; 7; 82; 2] /\
    decode (H := Demo.link) Demo.stale 3 packet = Returns infos /\
    map descriptor infos = map descriptor Demo.batch.
Proof.
  destruct (decode_encode_roundtrip (H := Demo.link) Demo.stale Demo.batch 3
              (Demo.fresh Demo.handlers Demo.idle_port))
    as (packet & infos & Henc & Hbuf & _ & Hdec & Hdesc & _).
  - discriminate.
  - repeat constructor; vm_compute; congruence.
  - vm_compute; congruence.
  - simpl; lia.
  - exists packet, infos. repeat split; assumption.
Defined.

(** * The port *)

Section Port.

Context {callback_data_packet_t : Type} `{or_bus}.
Variable indeterminate : Z -> list Z.

Lemma io_step_refl (c : serial_controller callback_data_packet_t) : io_step c c.
Proof.
  unfold io_step. do 4 (split; [reflexivity|]).
  exists []. split; [by rewrite app_nil_r | constructor].
Qed.

Lemma io_step_trans (c1 c2 c3 : serial_controller callback_data_packet_t) :
  io_step c1 c2 -> io_step c2 c3 -> io_step c1 c3.
Proof.
  intros (Hh1 & Hl1 & Hp1 & Hs1 & m1 & Ht1 & Hm1) (Hh2 & Hl2 & Hp2 & Hs2 & m2 & Ht2 & Hm2).
  unfold io_step. do 4 (split; [congruence|]).
  exists (m1 ++ m2). split.
  - by rewrite Ht2, Ht1, app_assoc.
  - by apply Forall_app.
Qed.

Ltac io_now :=
  unfold io_step, emit, set_mStatus, set_port_rx, set_port_wr, set_orb, set_mSerial;
  simpl; do 4 (split; [reflexivity|]);
  eexists; split;
  [ first [ symmetry; apply app_nil_r | rewrite <- ?app_assoc; reflexivity ]
  | repeat constructor ].

Lemma writePacket_io packet (c : serial_controller callback_data_packet_t) :
  io_step c (writePacket packet c).2.
Proof.
  unfold writePacket.
  destruct c as [[op oo rx [|[n| |] wr]] st sp hm ls d tr]; simpl;
    try destruct (_ =? _); io_now.
Qed.

Lemma readPacket_from_io rx : forall (c : serial_controller callback_data_packet_t),
  io_step c (readPacket_from rx c).2.
Proof.
  induction rx as [|r rx IH]; intros c.
  - simpl. destruct (mStopping c); io_now.
  - simpl. destruct (mStopping c); [io_now|].
    destruct r as [|reply| |]; try io_now.
    destruct (feed reply _) as [d complete]. destruct complete; [io_now|].
    eapply io_step_trans; [|apply IH]. io_now.
Qed.

Lemma sendSerialPacket_io packet (c : serial_controller callback_data_packet_t) :
  io_step c (sendSerialPacket packet c).2.
Proof.
  unfold sendSerialPacket. destruct (port_isOpen (mSerial c)); [|apply io_step_refl].
  pose proof (writePacket_io packet c) as Hw.
  destruct (writePacket packet c) as [w c1]; simpl in Hw.
  pose proof (readPacket_from_io (port_rx (mSerial c1)) c1) as Hr.
  unfold readPacket. destruct (readPacket_from _ c1) as [complete c2]; simpl in Hr.
  destruct complete; simpl; eapply io_step_trans; eauto.
Qed.

Lemma callbacks_app (tr mid : list (event callback_data_packet_t)) :
  callbacks (tr ++ mid) = callbacks tr ++ callbacks mid.
Proof. apply List.filter_app. Qed.

Lemma callbacks_io (mid : list (event callback_data_packet_t)) :
  Forall (fun e => io_event e = true) mid -> callbacks mid = [].
Proof.
  induction 1 as [|e mid He _ IH]; simpl; [done|].
  destruct e; simpl in *; try discriminate; exact IH.
Qed.

Lemma io_step_callbacks (c c' : serial_controller callback_data_packet_t) :
  io_step c c' -> callbacks (trace c') = callbacks (trace c).
Proof.
  intros (_ & _ & _ & _ & mid & -> & Hmid).
  by rewrite callbacks_app, (callbacks_io mid Hmid), app_nil_r.
Qed.

End Port.

(** * The registry and the dispatch *)

Section Dispatch.

Context {callback_data_packet_t : Type} `{or_bus}.
Variable indeterminate : Z -> list Z.

(** C4: when a category is already bound, [addCallback] returns false and
    leaves the controller, hence the whole registry, as it was: the handler
    registered first stays bound, and dispatching a sub-packet of that
    category afterwards invokes that first handler and no other (none at
    all for category 0, which is never dispatched). *)
Theorem addCallback_bound_keeps_first
    (c : serial_controller callback_data_packet_t) (type : Z)
    (first second : callback_data_packet_t) :
  hashmap c !! type = Some first ->
  addCallback second type c = (false, c) /\
  hashmap (addCallback second type c).2 !! type = Some first /\
  forall info, info_type info = type ->
    callbacks (trace (dispatch info (addCallback second type c).2))
    = callbacks (trace c)
        ++ (if type =? 0 then []
            else [EvCallback first (info_option info) type
                    (info_command info) (info_message info)]).
Proof.
  intros Hbound. unfold addCallback. rewrite Hbound. simpl.
  split; [done|]. split; [done|].
  intros info <-. rewrite dispatch_set_trace. simpl.
  rewrite callbacks_app. f_equal.
  unfold dispatch_events. destruct (info_type info =? 0); [done|].
  by rewrite Hbound.
Qed.

Lemma parse_packet_alive fuel receive (c : serial_controller callback_data_packet_t) :
  pkt_buffer receive !! 0%nat = Some (pkt_length receive) ->
  pkt_buffer receive !! 1%nat = Some 0 ->
  2 <= pkt_length receive <= sizeof_info ->
  pkt_length receive <= Z.of_nat (length (pkt_buffer receive)) ->
  (2 <= fuel)%nat ->
  parse_packet indeterminate fuel receive c
  = Returns (true, set_mStatus SERIAL_OK
                     (emit (EvLog DEBUG "Return alive message") c)).
Proof.
  intros H0 H1 [Hlo Hhi] Hcap Hfuel.
  destruct fuel as [|[|fuel]]; [lia..|].
  destruct receive as [buffer n]; simpl in *.
  destruct buffer as [|b0 [|b1 buffer]]; simpl in *; try discriminate.
  injection H0 as ->. injection H1 as ->.
  unfold parse_packet; simpl.
  rewrite (proj2 (Z.ltb_lt 0 n)) by lia.
  unfold memcpy_info; simpl.
  rewrite (proj2 (Z.leb_le n _)) by lia.
  rewrite (proj2 (Z.leb_le n sizeof_info)) by lia. simpl.
  rewrite Z.ltb_irrefl.
  destruct (Z.to_nat n) as [|[|k]] eqn:Hk; [lia..|]. simpl.
  unfold dispatch; simpl. reflexivity.
Qed.

(** C5: when the reply to a round trip holds only a category-0 sub-packet
    (the self-length at offset 0 is the whole frame, the category byte is
    0), the round trip returns true with status [SERIAL_OK], the only thing
    the decoding adds to the trace is the debug line of the liveness
    confirmation, and no handler has been invoked since the round trip
    began.  This holds for the single-packet send used by [isAlive] and for
    the batch send used by [sendList]. *)
Theorem alive_only_reply (fuel : nat) (receive : packet_t) :
  pkt_buffer receive !! 0%nat = Some (pkt_length receive) ->
  pkt_buffer receive !! 1%nat = Some 0 ->
  2 <= pkt_length receive <= sizeof_info ->
  pkt_length receive <= Z.of_nat (length (pkt_buffer receive)) ->
  (2 <= fuel)%nat ->
  (forall frame (c0 c : serial_controller callback_data_packet_t),
     sendSerialPacket (encoderSingle frame) c0 = (receive, c) ->
     exists c',
       sendSerialFrame1 indeterminate fuel frame c0 = Returns (true, c') /\
       getStatus c' = SERIAL_OK /\
       trace c' = trace c ++ [EvLog DEBUG "Return alive message"] /\
       callbacks (trace c') = callbacks (trace c0)) /\
  (forall batch (c0 c : serial_controller callback_data_packet_t),
     batch <> [] ->
     (encoder batch).2 = length batch ->
     sendSerialPacket (encoder batch).1 c0 = (receive, c) ->
     exists c',
       sendSerialFrame indeterminate fuel batch c0 = Returns (true, c') /\
       getStatus c' = SERIAL_OK /\
       trace c' = trace c ++ [EvLog DEBUG "Return alive message"] /\
       callbacks (trace c') = callbacks (trace c0)).
Proof.
  intros H0 H1 Hlen Hcap Hfuel.
  assert (forall packet (c0 c : serial_controller callback_data_packet_t),
            sendSerialPacket packet c0 = (receive, c) ->
            callbacks (trace c ++ [EvLog DEBUG "Return alive message"])
            = callbacks (trace c0)) as Hquiet.
  { intros packet c0 c Hsend.
    pose proof (sendSerialPacket_io packet c0) as Hio. rewrite Hsend in Hio.
    simpl in Hio.
    rewrite callbacks_app, (io_step_callbacks _ _ Hio). simpl. apply app_nil_r. }
  split.
  - intros frame c0 c Hsend. eexists.
    unfold sendSerialFrame1. rewrite Hsend.
    rewrite parse_packet_alive by assumption.
    split; [reflexivity|]. split; [reflexivity|]. split; [reflexivity|].
    simpl. eauto.
  - intros batch c0 c Hne Hn Hsend. eexists.
    unfold sendSerialFrame.
    destruct batch as [|p batch]; [done|]. cbn [length Nat.eqb negb].
    destruct (encoder (p :: batch)) as [packet n] eqn:Henc. simpl in Hn, Hsend.
    rewrite Hn, Nat.eqb_refl, Hsend.
    rewrite parse_packet_alive by assumption.
    split; [reflexivity|]. split; [reflexivity|]. split; [reflexivity|].
    simpl. eauto.
Qed.

(** ** Frames with a category nobody registered *)

Lemma copied_from_app (l k : list packet_information_t) : forall i,
  copied_from indeterminate i (l ++ k)
  = copied_from indeterminate i l
      ++ copied_from indeterminate (i + total_length l) k.
Proof.
  induction l as [|p l IH]; intros i; simpl.
  - by rewrite Z.add_0_r.
  - by rewrite IH, Z.add_assoc.
Qed.

Lemma copied_fields i p :
  valid p ->
  info_length (copied indeterminate i p) = info_length p /\
  info_type (copied indeterminate i p) = info_type p /\
  info_option (copied indeterminate i p) = info_option p /\
  info_command (copied indeterminate i p) = info_command p /\
  payload (copied indeterminate i p) = payload p.
Proof.
  intros Hv. pose proof (descriptor_copied indeterminate i p Hv) as Hd.
  unfold descriptor in Hd. injection Hd; intros. repeat split; assumption.
Qed.

Lemma dispatch_events_known (hm : gmap Z callback_data_packet_t) i p :
  valid p -> known hm p ->
  exists e, dispatch_events hm (copied indeterminate i p) = [e] /\ invokes hm p e.
Proof.
  intros Hv [Hnz [callback Hcb]].
  destruct (copied_fields i p Hv) as (Hl & Ht & Ho & Hc & Hp).
  unfold dispatch_events. rewrite Ht, Ho, Hc, Hcb.
  rewrite (proj2 (Z.eqb_neq _ _) Hnz).
  eexists. split; [reflexivity|].
  exists callback, (info_message (copied indeterminate i p)).
  split; [done|]. split; [done|].
  rewrite <- Hp. unfold payload. by rewrite Hl.
Qed.

Lemma dispatch_events_unknown (hm : gmap Z callback_data_packet_t) i p :
  valid p -> info_type p <> 0 -> hm !! info_type p = None ->
  dispatch_events hm (copied indeterminate i p) = [].
Proof.
  intros Hv Hnz Hnone.
  destruct (copied_fields i p Hv) as (Hl & Ht & Ho & Hc & Hp).
  unfold dispatch_events. rewrite Ht, Hnone.
  by rewrite (proj2 (Z.eqb_neq _ _) Hnz).
Qed.

Lemma dispatch_events_all_known (hm : gmap Z callback_data_packet_t) batch : forall i,
  Forall valid batch -> Forall (known hm) batch ->
  Forall2 (invokes hm) batch
    (flat_map (dispatch_events hm) (copied_from indeterminate i batch)).
Proof.
  induction batch as [|p batch IH]; intros i Hv Hk; simpl; [constructor|].
  inversion Hv; inversion Hk; subst.
  destruct (dispatch_events_known hm i p) as (e & -> & He); [done..|].
  simpl. constructor; [done|]. by apply IH.
Qed.

Lemma invokes_no_report (hm : gmap Z callback_data_packet_t) batch calls :
  Forall2 (invokes hm) batch calls -> reports calls = [].
Proof.
  induction 1 as [|p e batch calls (cb & msg & _ & -> & _) _ IH]; simpl; done.
Qed.

(** C6 (as the code has it): a frame of valid sub-packets in which one
    sub-packet [u] carries a category that is not registered, all the others
    carrying registered categories: [parse_packet] returns true with status
    [SERIAL_OK]; what it appends to the trace is exactly one invocation per
    known sub-packet, in the order of the frame, each of the handler bound to
    that category.  The unknown sub-packet is skipped in silence: nothing is
    appended for it, no fault is reported, and the sub-packets after it are
    still dispatched. *)
Theorem unknown_category_skipped (fuel : nat) (receive : packet_t)
    (pre post : list packet_information_t) (u : packet_information_t)
    (rest : list Z) (c : serial_controller callback_data_packet_t) :
  Forall valid (pre ++ u :: post) ->
  pkt_buffer receive = flat_map encode_info (pre ++ u :: post) ++ rest ->
  pkt_length receive = total_length (pre ++ u :: post) ->
  Forall (known (hashmap c)) (pre ++ post) ->
  info_type u <> 0 ->
  hashmap c !! info_type u = None ->
  (length (pre ++ u :: post) < fuel)%nat ->
  exists c' calls,
    parse_packet indeterminate fuel receive c = Returns (true, c') /\
    getStatus c' = SERIAL_OK /\
    trace c' = trace c ++ calls /\
    Forall2 (invokes (hashmap c)) (pre ++ post) calls /\
    reports calls = [].
Proof.
  intros Hv Hbuf Hlen Hknown Hnz Hnone Hfuel.
  assert (decode_loop indeterminate fuel receive 0
          = Returns (copied_from indeterminate 0 (pre ++ u :: post))) as Hdec
    by exact (decode_loop_batch indeterminate (pre ++ u :: post) fuel receive [] rest
                Hv Hbuf Hlen Hfuel).
  apply Forall_app in Hv as [Hvpre Hvrest].
  inversion Hvrest as [|? ? Hvu Hvpost]; subst.
  apply Forall_app in Hknown as [Hkpre Hkpost].
  assert (0 < pkt_length receive) as Hpos.
  { rewrite Hlen, total_length_app. simpl.
    pose proof (total_length_nonneg pre (valid_nonneg pre Hvpre)).
    pose proof (total_length_nonneg post (valid_nonneg post Hvpost)).
    destruct Hvu as [[Hlo _] _]. unfold LNG_HEAD_INFORMATION_PACKET in Hlo. lia. }
  set (calls := flat_map (dispatch_events (hashmap c))
                  (copied_from indeterminate 0 (pre ++ u :: post))).
  assert (Forall2 (invokes (hashmap c)) (pre ++ post) calls) as Hcalls.
  { subst calls. rewrite copied_from_app, flat_map_app. simpl.
    rewrite (dispatch_events_unknown (hashmap c) _ u Hvu Hnz Hnone). simpl.
    apply Forall2_app; by apply dispatch_events_all_known. }
  exists (set_mStatus SERIAL_OK (set_trace (trace c ++ calls) c)), calls.
  split.
  - rewrite parse_packet_decode, (proj2 (Z.ltb_lt _ _) Hpos).
    unfold decode. rewrite Hdec. simpl.
    by rewrite dispatch_all_set_trace.
  - split; [done|]. split; [done|]. split; [done|].
    by eapply invokes_no_report.
Qed.

End Dispatch.

Lemma addCallback_bound_keeps_first_witness :
  Demo.handlers !! 5 = Some "five"%string /\
  addCallback "other"%string 5 (Demo.fresh Demo.handlers Demo.idle_port)
  = (false, Demo.fresh Demo.handlers Demo.idle_port).
Proof.
  split; [reflexivity|].
  exact (proj1 (addCallback_bound_keeps_first (H := Demo.link)
                  (Demo.fresh Demo.handlers Demo.idle_port) 5
                  "five"%string "other"%string eq_refl)).
Defined.

Lemma alive_only_reply_witness :
  exists c',
    sendSerialFrame1 (H := Demo.link) Demo.stale 2 (CREATE_PACKET_RESPONSE 0 0 82)
      (Demo.fresh Demo.handlers (mk_serial true (Opened true) [Data [4; 4; 0; 82; 0; 0]] []))
    = Returns (true, c') /\
    getStatus c' = SERIAL_OK /\
    callbacks (trace c') = [].
Proof.
  destruct (alive_only_reply (callback_data_packet_t := string) (H := Demo.link)
              Demo.stale 2 (mk_packet [4; 0; 82; 0] 4)) as [Hsingle _].
  - reflexivity.
  - reflexivity.
  - vm_compute. split; congruence.
  - vm_compute. congruence.
  - lia.
  - edestruct (Hsingle (CREATE_PACKET_RESPONSE 0 0 82)
                 (Demo.fresh Demo.handlers
                    (mk_serial true (Opened true) [Data [4; 4; 0; 82; 0; 0]] [])))
      as (c' & Hret & Hst & _ & Hcb).
    + vm_compute. reflexivity.
    + exists c'. split; [exact Hret|]. split; [exact Hst|]. exact Hcb.
Defined.

(** C6, as the specification states it, fails on the frame
    [4 5 0 1 | 4 9 0 1 | 4 7 0 2] with handlers bound to categories 5 and 7
    only: both handlers are invoked, once each and in order, but the trace
    holds nothing else and the status is [SERIAL_OK]; the number of fault
    records is zero, not one. *)
Lemma unknown_category_not_recorded :
  exists c',
    parse_packet (H := Demo.link) Demo.stale 4
      (mk_packet [4; 5; 0; 1; 4; 9; 0; 1; 4; 7; 0; 2] 12)
      (Demo.fresh Demo.handlers Demo.idle_port)
    = Returns (true, c') /\
    Demo.handlers !! 9 = None /\
    trace c' = [EvCallback "five"%string 0 5 1 (replicate 8 170);
                EvCallback "seven"%string 0 7 2 (replicate 8 170)] /\
    getStatus c' = SERIAL_OK /\
    length (reports (trace c')) <> 1%nat.
Proof.
  eexists. split; [vm_compute; reflexivity|].
  split; [reflexivity|]. split; [reflexivity|]. split; [reflexivity|].
  simpl. discriminate.
Qed.

Lemma unknown_category_skipped_witness :
  exists c' calls,
    parse_packet (H := Demo.link) Demo.stale 4
      (mk_packet [4; 5; 0; 1; 4; 9; 0; 1; 4; 7; 0; 2] 12)
      (Demo.fresh Demo.handlers Demo.idle_port)
    = Returns (true, c') /\
    getStatus c' = SERIAL_OK /\
    trace c' = calls /\
    length calls = 2%nat.
Proof.
  destruct (unknown_category_skipped (H := Demo.link) Demo.stale 4
              (mk_packet [4; 5; 0; 1; 4; 9; 0; 1; 4; 7; 0; 2] 12)
              [mk_info 4 5 0 1 []] [mk_info 4 7 0 2 []] (mk_info 4 9 0 1 []) []
              (Demo.fresh Demo.handlers Demo.idle_port))
    as (c' & calls & Hret & Hst & Htr & Hcalls & _).
  - repeat constructor; vm_compute; congruence.
  - reflexivity.
  - reflexivity.
  - repeat constructor; try (vm_compute; congruence); eexists; reflexivity.
  - vm_compute; congruence.
  - reflexivity.
  - simpl; lia.
  - exists c', calls. split; [exact Hret|]. split; [exact Hst|].
    split; [exact Htr|].
    apply Forall2_length in Hcalls. simpl in Hcalls. congruence.
Defined.

(** * Frames that are not well formed *)

Section Malformed.

Context {callback_data_packet_t : Type} `{or_bus}.
Variable indeterminate : Z -> list Z.

(** The only frame [parse_packet] turns down is the one of length zero, and
    it does so with status [SERIAL_EMPTY]. *)
Lemma parse_packet_false fuel receive (c c' : serial_controller callback_data_packet_t) :
  parse_packet indeterminate fuel receive c = Returns (false, c') ->
  pkt_length receive <= 0 /\ c' = set_mStatus SERIAL_EMPTY c.
Proof.
  unfold parse_packet. destruct (0 <? pkt_length receive) eqn:Hpos.
  - destruct (parse_loop indeterminate fuel receive 0 c); simpl; congruence.
  - apply Z.ltb_ge in Hpos. intros [= <-]. done.
Qed.

Lemma parse_loop_zero_self_length fuel receive :
  0 < pkt_length receive ->
  pkt_buffer receive !! 0%nat = Some 0 ->
  forall c : serial_controller callback_data_packet_t,
    parse_loop indeterminate fuel receive 0 c = OutOfFuel.
Proof.
  intros Hpos Hzero. induction fuel as [|fuel IH]; intros c; [done|].
  cbn [parse_loop]. change (Z.to_nat 0) with 0%nat.
  rewrite (proj2 (Z.ltb_lt _ _) Hpos), Hzero.
  unfold memcpy_info. simpl.
  rewrite (proj2 (Z.leb_le 0 (Z.of_nat _))) by lia.
  unfold sizeof_info, LNG_HEAD_INFORMATION_PACKET.
  rewrite (proj2 (Z.leb_le 0 (4 + Z.of_nat _))) by lia. simpl.
  apply IH.
Qed.

(** A frame whose first self-length is zero keeps [parse_packet] in its loop
    for ever: whatever the fuel, the call has not returned. *)
Lemma parse_packet_zero_self_length fuel receive
    (c : serial_controller callback_data_packet_t) :
  0 < pkt_length receive ->
  pkt_buffer receive !! 0%nat = Some 0 ->
  parse_packet indeterminate fuel receive c = OutOfFuel.
Proof.
  intros Hpos Hzero. unfold parse_packet.
  rewrite (proj2 (Z.ltb_lt _ _) Hpos).
  by rewrite parse_loop_zero_self_length.
Qed.

End Malformed.

(** C1 (the code does not do this): [parse_packet] advances by the
    self-length without comparing it with the length of the frame.  On the
    handlers for categories 5 and 7:
    - the frame of length 4 whose self-length is 8, in an array that holds
      four more bytes, is accepted: the call returns true with [SERIAL_OK]
      and hands bytes 4..7 of the array, which lie beyond the frame, to the
      handler of category 5;
    - the same frame in an array of four bytes makes the [memcpy] read
      beyond the array;
    - a frame whose self-length is zero never leaves the loop;
    - only the frame of length zero is turned down, with [SERIAL_EMPTY]. *)
Theorem parse_packet_trusts_self_length :
  parse_packet (H := Demo.link) Demo.stale 2
    (mk_packet [8; 5; 0; 1; 9; 9; 9; 9] 4) Demo.controller
  = Returns (true,
             set_mStatus SERIAL_OK
               (emit (EvCallback "five"%string 0 5 1 [9; 9; 9; 9; 170; 170; 170; 170])
                  Demo.controller)) /\
  parse_packet (H := Demo.link) Demo.stale 2
    (mk_packet [8; 5; 0; 1] 4) Demo.controller
  = Undefined /\
  (forall fuel,
     parse_packet (H := Demo.link) Demo.stale fuel
       (mk_packet [0; 5; 0; 1] 4) Demo.controller
     = OutOfFuel) /\
  parse_packet (H := Demo.link) Demo.stale 2 (mk_packet [] 0) Demo.controller
  = Returns (false, set_mStatus SERIAL_EMPTY Demo.controller).
Proof.
  split; [vm_compute; reflexivity|].
  split; [vm_compute; reflexivity|].
  split; [|vm_compute; reflexivity].
  intros fuel. apply parse_packet_zero_self_length; [simpl; lia | reflexivity].
Qed.

(** * Sending *)

Section Sending.

Context {callback_data_packet_t : Type} `{or_bus}.
Variable indeterminate : Z -> list Z.

Lemma encoder_overflow batch :
  batch <> [] ->
  Forall (fun p => 0 <= info_length p) batch ->
  MAX_BUFF_TX < total_length batch ->
  ((encoder batch).2 =? length batch)%nat = false.
Proof.
  intros Hne Hnn Hover. apply Nat.eqb_neq.
  destruct batch as [|p batch]; [done|].
  inversion Hnn as [|? ? Hp Hrest]; subst.
  unfold encoder. cbn [encoder_from total_length foldr length] in *.
  rewrite Z.add_0_l.
  destruct (info_length p <=? MAX_BUFF_TX) eqn:Hfit.
  - apply Z.leb_le in Hfit.
    pose proof (encoder_from_overflow batch (info_length p) Hrest Hfit Hover) as Hlt.
    destruct (encoder_from (info_length p) batch) as [bytes n]; simpl in *. lia.
  - simpl. lia.
Qed.

(** C2 (the code does not do this): when the pending queue is not empty and
    its encoded size exceeds the capacity of the frame, [sendList] sets the
    status to [SERIAL_BUFFER_FULL] and transmits nothing, but it returns
    true and leaves the queue empty: [sendSerialFrame] falls through to its
    final [return true], and [sendList] clears the queue on true. *)
Theorem buffer_full_reports_success (fuel : nat)
    (c : serial_controller callback_data_packet_t) :
  list_send c <> [] ->
  Forall (fun p => 0 <= info_length p) (list_send c) ->
  MAX_BUFF_TX < total_length (list_send c) ->
  exists c',
    sendList indeterminate fuel c = Returns (true, c') /\
    getStatus c' = SERIAL_BUFFER_FULL /\
    list_send c' = [] /\
    transmitted (trace c') = transmitted (trace c) /\
    trace c' = trace c ++ [EvLock; EvLog ERROR "Buffer FULL"; EvUnlock].
Proof.
  intros Hne Hnn Hover. eexists.
  unfold sendList, sendSerialFrame. cbn [list_send emit].
  destruct (list_send c) as [|p batch] eqn:Hq; [done|].
  cbn [length Nat.eqb negb].
  pose proof (encoder_overflow (p :: batch) Hne Hnn Hover) as Hn.
  destruct (encoder (p :: batch)) as [packet n]. simpl in Hn.
  cbn [length] in Hn |- *. rewrite Hn. simpl.
  split; [reflexivity|]. split; [reflexivity|]. split; [reflexivity|].
  assert (trace (emit EvUnlock
                   (set_list_send []
                      (set_mStatus SERIAL_BUFFER_FULL
                         (emit (EvLog ERROR "Buffer FULL") (emit EvLock c)))))
          = trace c ++ [EvLock; EvLog ERROR "Buffer FULL"; EvUnlock]) as ->
    by (simpl; by rewrite <- !app_assoc).
  split; [|reflexivity].
  unfold transmitted. rewrite List.filter_app. simpl. apply app_nil_r.
Qed.

Lemma writePacket_keeps packet (c : serial_controller callback_data_packet_t) :
  mStopping (writePacket packet c).2 = mStopping c /\
  port_rx (mSerial (writePacket packet c).2) = port_rx (mSerial c).
Proof.
  unfold writePacket.
  destruct c as [[op oo rx [|[n| |] wr]] st sp hm ls d tr]; simpl;
    try destruct (_ =? _); done.
Qed.

Lemma readPacket_timeout (c : serial_controller callback_data_packet_t) :
  mStopping c = false ->
  hd Timeout (port_rx (mSerial c)) = Timeout ->
  (readPacket c).1 = false /\ mStatus (readPacket c).2 = SERIAL_TIMEOUT.
Proof.
  intros Hrun Hrx. unfold readPacket.
  destruct (port_rx (mSerial c)) as [|r rx]; simpl in *; rewrite Hrun.
  - done.
  - subst r. done.
Qed.

(** Whenever [readPacket] gives up, the round trip parses the empty packet
    and the status it had set is overwritten with [SERIAL_EMPTY]. *)
Lemma failed_read_ends_empty fuel packet (c : serial_controller callback_data_packet_t) :
  port_isOpen (mSerial c) = true ->
  (readPacket (writePacket packet c).2).1 = false ->
  parse_packet indeterminate fuel (sendSerialPacket packet c).1
    (sendSerialPacket packet c).2
  = Returns (false, set_mStatus SERIAL_EMPTY (readPacket (writePacket packet c).2).2).
Proof.
  intros Hopen Hread. unfold sendSerialPacket. rewrite Hopen.
  destruct (writePacket packet c) as [w c1]. simpl in *.
  destruct (readPacket c1) as [complete c2]. simpl in *. subst complete.
  reflexivity.
Qed.

(** Every round trip that returns false ends with status [SERIAL_EMPTY],
    whatever made it fail. *)
Lemma sendSerialFrame1_false fuel frame (c c' : serial_controller callback_data_packet_t) :
  sendSerialFrame1 indeterminate fuel frame c = Returns (false, c') ->
  getStatus c' = SERIAL_EMPTY.
Proof.
  unfold sendSerialFrame1.
  destruct (sendSerialPacket (encoderSingle frame) c) as [receive c1].
  intros Hparse. apply parse_packet_false in Hparse as [_ ->]. reflexivity.
Qed.

Lemma round_trip_timeout fuel packet (c : serial_controller callback_data_packet_t) :
  port_isOpen (mSerial c) = true ->
  mStopping c = false ->
  hd Timeout (port_rx (mSerial c)) = Timeout ->
  mStatus (readPacket (writePacket packet c).2).2 = SERIAL_TIMEOUT /\
  parse_packet indeterminate fuel (sendSerialPacket packet c).1
    (sendSerialPacket packet c).2
  = Returns (false, set_mStatus SERIAL_EMPTY (readPacket (writePacket packet c).2).2).
Proof.
  intros Hopen Hrun Hrx.
  destruct (writePacket_keeps packet c) as [Hstop Hkeep].
  destruct (readPacket_timeout (writePacket packet c).2) as [Hfalse Hst];
    [congruence.. |].
  split; [exact Hst|]. by apply failed_read_ends_empty.
Qed.

(** C3 (the code does not do this): when the port is open, the controller is
    not stopping and the first answer of the port is a time-out,
    [readPacket] sets the status to [SERIAL_TIMEOUT] and gives up; the round
    trip then parses the empty packet, returns false and leaves the status
    at [SERIAL_EMPTY], for the single-packet send and for the batch send
    alike.  A reply of length zero ends in the same way, so [getStatus]
    never tells the two apart. *)
Theorem timeout_status_overwritten (fuel : nat) (frame : packet_information_t)
    (batch : list packet_information_t)
    (c : serial_controller callback_data_packet_t) :
  port_isOpen (mSerial c) = true ->
  mStopping c = false ->
  hd Timeout (port_rx (mSerial c)) = Timeout ->
  batch <> [] ->
  (encoder batch).2 = length batch ->
  mStatus (readPacket (writePacket (encoderSingle frame) c).2).2 = SERIAL_TIMEOUT /\
  (exists c',
     sendSerialFrame1 indeterminate fuel frame c = Returns (false, c') /\
     getStatus c' = SERIAL_EMPTY) /\
  mStatus (readPacket (writePacket (encoder batch).1 c).2).2 = SERIAL_TIMEOUT /\
  (exists c',
     sendSerialFrame indeterminate fuel batch c = Returns (false, c') /\
     getStatus c' = SERIAL_EMPTY) /\
  (forall (c0 c1 : serial_controller callback_data_packet_t) receive,
     sendSerialPacket (encoderSingle frame) c0 = (receive, c1) ->
     pkt_length receive = 0 ->
     exists c',
       sendSerialFrame1 indeterminate fuel frame c0 = Returns (false, c') /\
       getStatus c' = SERIAL_EMPTY).
Proof.
  intros Hopen Hrun Hrx Hne Hn.
  destruct (round_trip_timeout fuel (encoderSingle frame) c Hopen Hrun Hrx)
    as [Hst1 Hend1].
  destruct (round_trip_timeout fuel (encoder batch).1 c Hopen Hrun Hrx)
    as [Hstn Hendn].
  split; [exact Hst1|]. split; [|split; [exact Hstn|split]].
  - eexists. unfold sendSerialFrame1.
    destruct (sendSerialPacket (encoderSingle frame) c) as [receive c1].
    simpl in Hend1. rewrite Hend1. split; reflexivity.
  - unfold sendSerialFrame.
    destruct batch as [|p batch]; [done|]. cbn [length Nat.eqb negb].
    destruct (encoder (p :: batch)) as [packet n]. simpl in Hn, Hendn.
    rewrite Hn, Nat.eqb_refl.
    destruct (sendSerialPacket packet c) as [receive c1].
    simpl in Hendn. rewrite Hendn. eexists. split; reflexivity.
  - intros c0 c1 receive Hsend Hzero. eexists.
    unfold sendSerialFrame1, parse_packet. rewrite Hsend, Hzero. simpl.
    split; reflexivity.
Qed.

End Sending.

Lemma buffer_full_reports_success_witness :
  exists c',
    sendList (H := Demo.link) Demo.stale 1
      (set_list_send (Demo.batch ++ Demo.batch) Demo.controller)
    = Returns (true, c') /\
    getStatus c' = SERIAL_BUFFER_FULL /\
    list_send c' = [] /\
    transmitted (trace c') = [].
Proof.
  destruct (buffer_full_reports_success (H := Demo.link) Demo.stale 1
              (set_list_send (Demo.batch ++ Demo.batch) Demo.controller))
    as (c' & Hret & Hst & Hq & Htx & _).
  - discriminate.
  - repeat constructor; vm_compute; congruence.
  - vm_compute; reflexivity.
  - exists c'. split; [exact Hret|]. split; [exact Hst|]. split; [exact Hq|].
    exact Htx.
Defined.

Lemma timeout_status_overwritten_witness :
  exists c',
    sendSerialFrame1 (H := Demo.link) Demo.stale 1 (CREATE_PACKET_RESPONSE 1 5 82)
      Demo.controller
    = Returns (false, c') /\
    getStatus c' = SERIAL_EMPTY.
Proof.
  refine (proj1 (proj2 (timeout_status_overwritten (H := Demo.link) Demo.stale 1
                          (CREATE_PACKET_RESPONSE 1 5 82) Demo.batch Demo.controller
                          eq_refl eq_refl eq_refl _ eq_refl))).
  discriminate.
Defined.

(** * Opening the connection *)

Section Connection.

Context {callback_data_packet_t : Type} `{or_bus}.
Variable indeterminate : Z -> list Z.

(** [parse_packet] touches the status and the trace only. *)
Lemma parse_packet_shape fuel receive b (c c' : serial_controller callback_data_packet_t) :
  parse_packet indeterminate fuel receive c = Returns (b, c') ->
  exists st tr, c' = set_mStatus st (set_trace tr c).
Proof.
  rewrite parse_packet_decode. destruct (0 <? pkt_length receive).
  - destruct (decode indeterminate fuel receive) as [infos| | |]; simpl; try done.
    intros [= <- <-]. rewrite dispatch_all_set_trace. eauto.
  - intros [= <- <-]. exists SERIAL_EMPTY, (trace c). by destruct c.
Qed.

Lemma isAlive_keeps fuel b (c c' : serial_controller callback_data_packet_t) :
  isAlive indeterminate fuel c = Returns (b, c') ->
  port_isOpen (mSerial c') = port_isOpen (mSerial c) /\
  mStopping c' = mStopping c /\
  hashmap c' = hashmap c /\
  list_send c' = list_send c.
Proof.
  unfold isAlive, sendSerialFrame1.
  pose proof (sendSerialPacket_io
                (encoderSingle (CREATE_PACKET_RESPONSE 0 0 PACKET_REQUEST))
                (emit EvFlush c)) as (Hh & Hl & Hp & Hs & _).
  destruct (sendSerialPacket _ (emit EvFlush c)) as [receive c1]. simpl in *.
  intros Hparse. apply parse_packet_shape in Hparse as (st & tr & ->). simpl.
  done.
Qed.

(** X11: the probe succeeds only on an open port that has answered with a
    frame of positive length. *)
Lemma isAlive_true_reply fuel (c c' : serial_controller callback_data_packet_t) :
  isAlive indeterminate fuel c = Returns (true, c') ->
  port_isOpen (mSerial c) = true /\ 0 < pkt_length (mReceive_of (orb c')).
Proof.
  unfold isAlive, sendSerialFrame1, sendSerialPacket. simpl.
  destruct (port_isOpen (mSerial c)); [|done].
  destruct (writePacket _ (emit EvFlush c)) as [w c1].
  destruct (readPacket c1) as [[|] c2]; [|done].
  intros Hparse. split; [done|].
  pose proof (parse_packet_shape _ _ _ _ _ Hparse) as (st & tr & ->). simpl.
  unfold parse_packet in Hparse.
  destruct (0 <? pkt_length (mReceive_of (orb c2))) eqn:Hpos; [|done].
  by apply Z.ltb_lt.
Qed.

(** X12: when the port has opened and the probe fails, [start] returns
    false and leaves the port open: nothing in [start] closes it. *)
Lemma start_failed_probe_leaves_port_open fuel
    (c c' : serial_controller callback_data_packet_t) :
  port_open (mSerial c) = Opened true ->
  start indeterminate fuel c = Returns (false, c') ->
  port_isOpen (mSerial c') = true.
Proof.
  unfold start. intros ->. simpl.
  destruct (isAlive _ _ _) as [[[|] c1]| | |] eqn:Halive; simpl; try done.
  intros [= <-]. apply isAlive_keeps in Halive as (Hp & _). simpl in *. done.
Qed.

End Connection.

(** * The mutex of the pending queue *)

Section Mutex.

Context {callback_data_packet_t : Type} `{or_bus}.
Variable indeterminate : Z -> list Z.

Lemma io_event_not_mutex (mid : list (event callback_data_packet_t)) :
  Forall (fun e => io_event e = true) mid ->
  Forall (fun e => is_mutex e = false) mid.
Proof.
  intros Hmid. eapply Forall_impl; [exact Hmid|].
  intros e. by destruct e.
Qed.

Lemma dispatch_events_not_mutex (hm : gmap Z callback_data_packet_t) infos :
  Forall (fun e => is_mutex e = false) (flat_map (dispatch_events hm) infos).
Proof.
  induction infos as [|info infos IH]; simpl; [constructor|].
  apply Forall_app. split; [|exact IH].
  unfold dispatch_events. destruct (info_type info =? 0); [by repeat constructor|].
  destruct (hm !! info_type info); by repeat constructor.
Qed.

Lemma parse_packet_not_mutex fuel receive b (c c' : serial_controller callback_data_packet_t) :
  parse_packet indeterminate fuel receive c = Returns (b, c') ->
  exists mid, trace c' = trace c ++ mid /\ Forall (fun e => is_mutex e = false) mid.
Proof.
  rewrite parse_packet_decode. destruct (0 <? pkt_length receive).
  - destruct (decode indeterminate fuel receive) as [infos| | |]; simpl; try done.
    intros [= <- <-]. rewrite dispatch_all_set_trace. simpl.
    eexists. split; [reflexivity|]. apply dispatch_events_not_mutex.
  - intros [= <- <-]. exists []. simpl. by rewrite app_nil_r.
Qed.





End Mutex.



(** * The motor frame handler *)

Section MotorFrame.

Variable bitset_motor : Z -> Z.
Variable bitset_command : Z -> Z.

(** The guard [number_motor >= 0 || number_motor < size] holds for every
    motor number that is not negative, so the warning branch is never taken
    for the value of a bit-field. *)
Lemma allMotorsFrame_never_warns opt type command message u u' :
  0 <= bitset_motor command ->
  uNav.allMotorsFrame bitset_motor bitset_command opt type command message u
  = Returns u' ->
  uNav.EvRos WARN "Error enything motor is initialized for Motor" ∉ uNav.appended u u'.
Proof.
  unfold uNav.allMotorsFrame, uNav.appended. intros Hnn.
  rewrite (proj2 (Z.leb_le _ _) Hnn). simpl.
  destruct (uNav.mMotorName u !! _) as [name|]; [|done].
  destruct (uNav.mMotor u !! name); [|done].
  intros [= <-]. simpl. rewrite <- app_assoc, drop_app_length.
  intros Hin. repeat (apply elem_of_cons in Hin as [Hin|Hin]; [done|]).
  by apply elem_of_nil in Hin.
Qed.

(** C10 (the code does not do this): for a motor number that is not
    negative and not below the count of motor names, the guard of
    [allMotorsFrame] is true because of its first disjunct, the look-up
    [mMotorName.at(number_motor)] is reached and throws [out_of_range]; the
    warning is not what the handler does. *)
Theorem allMotorsFrame_out_of_range (opt type command : Z) (message : list Z)
    (u : uNav.uNavInterface) :
  Z.of_nat (length (uNav.mMotorName u)) <= bitset_motor command < 2 ^ 64 ->
  uNav.allMotorsFrame bitset_motor bitset_command opt type command message u
  = Throws out_of_range.
Proof.
  intros [Hge Hlt]. unfold uNav.allMotorsFrame.
  rewrite (proj2 (Z.leb_le 0 _)) by lia. simpl.
  unfold uNav.to_size_t. rewrite Z.mod_small by lia.
  rewrite lookup_ge_None_2 by lia. reflexivity.
Qed.

End MotorFrame.

Lemma allMotorsFrame_out_of_range_witness :
  uNav.allMotorsFrame Demo.low_nibble Demo.high_nibble 0 1 2 [] Demo.two_motors
  = Throws out_of_range.
Proof.
  apply (allMotorsFrame_out_of_range Demo.low_nibble Demo.high_nibble 0 1 2 []
           Demo.two_motors).
  vm_compute. split; [congruence | reflexivity].
Defined.

(** * More on the registry and the queue *)

Section Registry.

Context {callback_data_packet_t : Type} `{or_bus}.
Variable indeterminate : Z -> list Z.

(** X1: registering a handler for a category that is free returns true and
    binds exactly that category: the new handler is found under it, every
    other category keeps what it had, nothing else of the controller
    changes, and a further registration for the category is refused. *)
Theorem addCallback_fresh (c : serial_controller callback_data_packet_t)
    (type : Z) (callback other : callback_data_packet_t) :
  hashmap c !! type = None ->
  (addCallback callback type c).1 = true /\
  hashmap (addCallback callback type c).2 !! type = Some callback /\
  (forall t, t <> type ->
     hashmap (addCallback callback type c).2 !! t = hashmap c !! t) /\
  set_hashmap (hashmap c) (addCallback callback type c).2 = c /\
  addCallback other type (addCallback callback type c).2
  = (false, (addCallback callback type c).2).
Proof.
  intros Hfree.
  assert (addCallback callback type c
          = (true, set_hashmap (<[type := callback]> (hashmap c)) c)) as ->
    by (unfold addCallback; by rewrite Hfree).
  simpl.
  split; [done|]. split; [apply lookup_insert_eq|].
  split; [intros t Hne; by apply lookup_insert_ne|].
  split; [by destruct c|].
  unfold addCallback. simpl. by rewrite lookup_insert_eq.
Qed.

Lemma addFrame_fold (ps : list packet_information_t) :
  forall c0 : serial_controller callback_data_packet_t,
    list_send (foldl (fun c p => addFrame p c) c0 ps) = list_send c0 ++ ps /\
    hashmap (foldl (fun c p => addFrame p c) c0 ps) = hashmap c0 /\
    mStatus (foldl (fun c p => addFrame p c) c0 ps) = mStatus c0 /\
    mSerial (foldl (fun c p => addFrame p c) c0 ps) = mSerial c0.
Proof.
  induction ps as [|p ps IH]; intros c0; simpl.
  - by rewrite app_nil_r.
  - destruct (IH (addFrame p c0)) as (-> & -> & -> & ->). simpl.
    by rewrite <- app_assoc.
Qed.

(** X2: the pending queue keeps insertion order.  Queueing sub-packets one
    by one or as one vector leaves the same queue, the old content followed
    by the new sub-packets in the order given; [resetList] leaves it empty.
    None of them touches the registry, the status or the port. *)
Theorem queue_insertion_order (c : serial_controller callback_data_packet_t)
    (packets : list packet_information_t) :
  list_send (foldl (fun c p => addFrame p c) c packets) = list_send c ++ packets /\
  list_send (addFrames packets c) = list_send c ++ packets /\
  list_send (resetList (addFrames packets c)) = [] /\
  (forall c' : serial_controller callback_data_packet_t,
     c' = foldl (fun c p => addFrame p c) c packets \/
     c' = addFrames packets c \/ c' = resetList c ->
     hashmap c' = hashmap c /\ mStatus c' = mStatus c /\ mSerial c' = mSerial c).
Proof.
  split; [apply addFrame_fold|]. split; [done|]. split; [done|].
  intros c' [-> | [-> | ->]]; [apply addFrame_fold | done | done].
Qed.

End Registry.

(** * More on round trips *)

Section RoundTrips.

Context {callback_data_packet_t : Type} `{or_bus}.
Variable indeterminate : Z -> list Z.

Lemma transmitted_app (tr mid : list (event callback_data_packet_t)) :
  transmitted (tr ++ mid) = transmitted tr ++ transmitted mid.
Proof. apply List.filter_app. Qed.

Lemma dispatch_events_transmitted (hm : gmap Z callback_data_packet_t) infos :
  transmitted (flat_map (dispatch_events hm) infos) = [].
Proof.
  induction infos as [|info infos IH]; simpl; [done|].
  rewrite transmitted_app, IH, app_nil_r.
  unfold dispatch_events. destruct (info_type info =? 0); [done|].
  by destruct (hm !! info_type info).
Qed.

(** What [parse_packet] leaves behind when it returns. *)
Lemma parse_packet_result fuel receive b (c c' : serial_controller callback_data_packet_t) :
  parse_packet indeterminate fuel receive c = Returns (b, c') ->
  mStatus c' = (if b then SERIAL_OK else SERIAL_EMPTY) /\
  b = (0 <? pkt_length receive) /\
  list_send c' = list_send c /\ hashmap c' = hashmap c /\
  mSerial c' = mSerial c /\ orb c' = orb c /\ mStopping c' = mStopping c /\
  transmitted (trace c') = transmitted (trace c).
Proof.
  rewrite parse_packet_decode. destruct (0 <? pkt_length receive).
  - destruct (decode indeterminate fuel receive) as [infos| | |]; simpl; try done.
    intros [= <- <-]. rewrite dispatch_all_set_trace. simpl.
    rewrite transmitted_app, dispatch_events_transmitted, app_nil_r. done.
  - intros [= <- <-]. done.
Qed.

Lemma writePacket_transmitted packet (c : serial_controller callback_data_packet_t) :
  transmitted (trace (writePacket packet c).2)
  = transmitted (trace c)
      ++ [EvWrite (take (Z.to_nat (LNG_PACKET_HEADER + pkt_length packet + 1))
                     (build_pkg packet))].
Proof.
  unfold writePacket.
  destruct c as [[op oo rx [|[n| |] wr]] st sp hm ls d tr]; simpl;
    try destruct (_ =? _); simpl; rewrite !transmitted_app; simpl;
    by rewrite ?app_nil_r.
Qed.

Lemma readPacket_from_transmitted rx : forall c : serial_controller callback_data_packet_t,
  transmitted (trace (readPacket_from rx c).2) = transmitted (trace c).
Proof.
  induction rx as [|r rx IH]; intros c; simpl.
  - destruct (mStopping c); simpl; rewrite ?transmitted_app; simpl;
      by rewrite ?app_nil_r.
  - destruct (mStopping c); [done|].
    destruct r as [|reply| |]; simpl; rewrite ?transmitted_app; simpl;
      rewrite ?app_nil_r; try done.
    destruct (feed reply _) as [d [|]]; simpl.
    + rewrite !transmitted_app. simpl. by rewrite !app_nil_r.
    + rewrite IH. simpl. rewrite !transmitted_app. simpl. by rewrite !app_nil_r.
Qed.

(** [readPacket] looks at the stop flag and at the decoder only: two
    controllers that agree on them get the same answer, the same decoder
    state and the same answers left in the port. *)
Lemma readPacket_from_agree rx : forall c1 c2 : serial_controller callback_data_packet_t,
  mStopping c1 = mStopping c2 -> orb c1 = orb c2 ->
  (readPacket_from rx c1).1 = (readPacket_from rx c2).1 /\
  orb (readPacket_from rx c1).2 = orb (readPacket_from rx c2).2 /\
  port_rx (mSerial (readPacket_from rx c1).2)
  = port_rx (mSerial (readPacket_from rx c2).2) /\
  mStopping (readPacket_from rx c1).2 = mStopping (readPacket_from rx c2).2 /\
  (mStatus c1 = mStatus c2 ->
   mStatus (readPacket_from rx c1).2 = mStatus (readPacket_from rx c2).2).
Proof.
  induction rx as [|r rx IH]; intros c1 c2 Hstop Horb; simpl; rewrite <- Hstop.
  - destruct (mStopping c1) eqn:Hs; simpl; repeat split; congruence.
  - destruct (mStopping c1) eqn:Hs; [simpl; repeat split; congruence|].
    destruct r as [|reply| |]; try (simpl; repeat split; congruence).
    simpl. rewrite <- Horb.
    destruct (feed reply (orb c1)) as [d [|]]; [simpl; repeat split; congruence|].
    match goal with
    | |- (readPacket_from rx ?a).1 = (readPacket_from rx ?b).1 /\ _ =>
        destruct (IH a b) as (? & ? & ? & ? & Hst); [simpl; congruence..|]
    end.
    repeat split; try done; intros Heq; by apply Hst.
Qed.

Lemma sendSerialPacket_transmitted packet (c : serial_controller callback_data_packet_t) :
  transmitted (trace (sendSerialPacket packet c).2)
  = transmitted (trace c)
      ++ (if port_isOpen (mSerial c)
          then [EvWrite (take (Z.to_nat (LNG_PACKET_HEADER + pkt_length packet + 1))
                           (build_pkg packet))]
          else []).
Proof.
  unfold sendSerialPacket. destruct (port_isOpen (mSerial c)); [|by rewrite app_nil_r].
  pose proof (writePacket_transmitted packet c) as Hw.
  destruct (writePacket packet c) as [w c1]. simpl in Hw.
  pose proof (readPacket_from_transmitted (port_rx (mSerial c1)) c1) as Hr.
  unfold readPacket. destruct (readPacket_from _ c1) as [[|] c2]; simpl in *; congruence.
Qed.

Lemma sendSerialFrame_result fuel batch b (c c' : serial_controller callback_data_packet_t) :
  sendSerialFrame indeterminate fuel batch c = Returns (b, c') ->
  list_send c' = list_send c /\ hashmap c' = hashmap c /\
  port_isOpen (mSerial c') = port_isOpen (mSerial c) /\
  (batch = [] -> b = true /\ c' = c) /\
  (batch <> [] ->
   mStatus c' = (if b
                 then if ((encoder batch).2 =? length batch)%nat
                      then SERIAL_OK else SERIAL_BUFFER_FULL
                 else SERIAL_EMPTY)).
Proof.
  unfold sendSerialFrame. destruct batch as [|p batch]; cbn [length Nat.eqb negb].
  - intros [= <- <-]. done.
  - destruct (encoder (p :: batch)) as [packet n]. cbn [snd].
    destruct (n =? S (length batch))%nat.
    + pose proof (sendSerialPacket_io packet c) as (Hh & Hl & Hp & _).
      destruct (sendSerialPacket packet c) as [receive c1]. simpl in *.
      intros Hparse.
      apply parse_packet_result in Hparse as (Hst & _ & Hl' & Hh' & Hs' & _).
      rewrite Hl', Hh', Hs'. by destruct b.
    + intros [= <- <-]. done.
Qed.

Lemma sendList_inv fuel b (c c' : serial_controller callback_data_packet_t) :
  sendList indeterminate fuel c = Returns (b, c') ->
  exists c1,
    sendSerialFrame indeterminate fuel (list_send c) (emit EvLock c) = Returns (b, c1) /\
    c' = emit EvUnlock (if b then set_list_send [] c1 else c1).
Proof.
  unfold sendList. cbn [list_send emit].
  destruct (sendSerialFrame indeterminate fuel (list_send c) (emit EvLock c))
    as [[state c1]| | |]; simpl; try done.
  intros [= <- <-]. eauto.
Qed.

Lemma sendList_result fuel b (c c' : serial_controller callback_data_packet_t) :
  sendList indeterminate fuel c = Returns (b, c') ->
  list_send c' = (if b then [] else list_send c) /\
  hashmap c' = hashmap c /\
  (list_send c <> [] ->
   getStatus c'
   = (if b
      then if ((encoder (list_send c)).2 =? length (list_send c))%nat
           then SERIAL_OK else SERIAL_BUFFER_FULL
      else SERIAL_EMPTY)).
Proof.
  intros Hsend. apply sendList_inv in Hsend as (c1 & Hframe & ->).
  apply sendSerialFrame_result in Hframe as (Hl & Hh & _ & _ & Hst). simpl in *.
  split; [by destruct b|]. split; [by destruct b|].
  intros Hne. specialize (Hst Hne). unfold getStatus. by destruct b.
Qed.

Lemma sendSerialFrame_transmitted fuel b batch (c c' : serial_controller callback_data_packet_t) :
  batch <> [] ->
  Forall valid batch ->
  total_length batch <= MAX_BUFF_TX ->
  port_isOpen (mSerial c) = true ->
  sendSerialFrame indeterminate fuel batch c = Returns (b, c') ->
  transmitted (trace c')
  = transmitted (trace c)
      ++ [EvWrite (take (Z.to_nat (LNG_PACKET_HEADER + total_length batch + 1))
                     (build_pkg (mk_packet (flat_map encode_info batch)
                                   (total_length batch))))].
Proof.
  intros Hne Hv Hfit Hopen. unfold sendSerialFrame.
  rewrite (encoder_fits batch Hv Hfit).
  destruct batch as [|p batch]; [done|].
  cbn [length Nat.eqb negb]. rewrite Nat.eqb_refl.
  match goal with
  | |- context [sendSerialPacket ?pk ?c0] =>
      pose proof (sendSerialPacket_transmitted pk c0) as Htx;
      destruct (sendSerialPacket pk c0) as [receive c1]
  end.
  simpl in Htx. rewrite Hopen in Htx. intros Hparse.
  apply parse_packet_result in Hparse as (_ & _ & _ & _ & _ & _ & _ & Hkeep).
  by rewrite Hkeep, Htx.
Qed.

(** X3: with nothing pending, [sendList] returns true without a single call
    of the port: it only takes and releases the mutex, and the status and
    the port are as before, whatever they were. *)
Theorem sendList_nothing_pending (fuel : nat)
    (c : serial_controller callback_data_packet_t) :
  list_send c = [] ->
  exists c',
    sendList indeterminate fuel c = Returns (true, c') /\
    appended c c' = [EvLock; EvUnlock] /\
    getStatus c' = getStatus c /\
    mSerial c' = mSerial c /\
    list_send c' = [].
Proof.
  intros Hq. unfold sendList, sendSerialFrame. cbn [list_send emit]. rewrite Hq. simpl.
  eexists. split; [reflexivity|]. unfold appended. simpl.
  by rewrite <- app_assoc, drop_app_length.
Qed.

(** X4: [sendList] empties the queue exactly when it returns true; when it
    returns false the pending sub-packets are all still queued, in order.
    The registry is the same in both cases. *)
Theorem sendList_queue (fuel : nat) (b : bool)
    (c c' : serial_controller callback_data_packet_t) :
  sendList indeterminate fuel c = Returns (b, c') ->
  list_send c' = (if b then [] else list_send c) /\
  hashmap c' = hashmap c.
Proof.
  unfold sendList. cbn [list_send emit].
  destruct (sendSerialFrame indeterminate fuel (list_send c) (emit EvLock c))
    as [[state c1]| | |] eqn:Hsend; simpl; try done.
  intros [= <- <-].
  apply sendSerialFrame_result in Hsend as (Hl & Hh & _). simpl in *.
  by destruct state.
Qed.

(** X5: the status after a send that returns is a function of what it
    returns.  A single-packet send ends with [SERIAL_OK] when it returns
    true and with [SERIAL_EMPTY] when it returns false; [sendList] on a
    queue that is not empty ends with [SERIAL_EMPTY] when it returns false
    and, when it returns true, with [SERIAL_OK] if the queue fitted the
    frame and [SERIAL_BUFFER_FULL] if not.  The statuses [SERIAL_TIMEOUT],
    [SERIAL_EXCEPTION] and [SERIAL_IOEXCEPTION] never outlive a send. *)
Theorem send_status_by_result (fuel : nat)
    (c : serial_controller callback_data_packet_t) :
  (forall frame b c',
     sendSerialFrame1 indeterminate fuel frame c = Returns (b, c') ->
     getStatus c' = (if b then SERIAL_OK else SERIAL_EMPTY)) /\
  (forall b c',
     list_send c <> [] ->
     sendList indeterminate fuel c = Returns (b, c') ->
     getStatus c'
     = (if b
        then if ((encoder (list_send c)).2 =? length (list_send c))%nat
             then SERIAL_OK else SERIAL_BUFFER_FULL
        else SERIAL_EMPTY)).
Proof.
  split.
  - intros frame b c'. unfold sendSerialFrame1.
    destruct (sendSerialPacket (encoderSingle frame) c) as [receive c1].
    intros Hparse. by apply parse_packet_result in Hparse as (Hst & _).
  - intros b c' Hne. unfold sendList. cbn [list_send emit].
    destruct (sendSerialFrame indeterminate fuel (list_send c) (emit EvLock c))
      as [[state c1]| | |] eqn:Hsend; simpl; try done.
    intros [= <- <-].
    apply sendSerialFrame_result in Hsend as (_ & _ & _ & _ & Hst).
    specialize (Hst Hne). unfold getStatus. by destruct state.
Qed.

(** X6: on a closed port a send makes no call of the port at all: the
    single-packet send returns false with [SERIAL_EMPTY] and an unchanged
    trace, and [sendList] on a queue that fits returns false, keeps the
    queue and adds only the two mutex events. *)
Theorem send_on_closed_port (fuel : nat) (frame : packet_information_t)
    (c : serial_controller callback_data_packet_t) :
  port_isOpen (mSerial c) = false ->
  sendSerialFrame1 indeterminate fuel frame c
  = Returns (false, set_mStatus SERIAL_EMPTY c) /\
  (list_send c <> [] ->
   (encoder (list_send c)).2 = length (list_send c) ->
   exists c',
     sendList indeterminate fuel c = Returns (false, c') /\
     list_send c' = list_send c /\
     appended c c' = [EvLock; EvUnlock] /\
     getStatus c' = SERIAL_EMPTY).
Proof.
  intros Hclosed. split.
  - unfold sendSerialFrame1, sendSerialPacket. by rewrite Hclosed.
  - intros Hne Hfit. unfold sendList, sendSerialFrame, sendSerialPacket.
    cbn [list_send emit mSerial]. rewrite Hclosed.
    destruct (list_send c) as [|p batch] eqn:Hq; [done|]. cbn [length Nat.eqb negb].
    destruct (encoder (p :: batch)) as [packet n]. simpl in Hfit. subst n.
    cbn [length]. rewrite Nat.eqb_refl. simpl.
    eexists. split; [reflexivity|]. simpl. split; [done|].
    unfold appended. simpl. by rewrite <- app_assoc, drop_app_length.
Qed.

Lemma readPacket_from_stopping rx (c : serial_controller callback_data_packet_t) :
  mStopping c = true -> readPacket_from rx c = (false, set_port_rx rx c).
Proof. intros Hstop. destruct rx; simpl; by rewrite Hstop. Qed.

Lemma writePacket_keeps_orb packet (c : serial_controller callback_data_packet_t) :
  orb (writePacket packet c).2 = orb c /\
  port_isOpen (mSerial (writePacket packet c).2) = port_isOpen (mSerial c).
Proof.
  unfold writePacket.
  destruct c as [[op oo rx [|[n| |] wr]] st sp hm ls d tr]; simpl;
    try destruct (_ =? _); done.
Qed.

Lemma writePacket_trace packet (c : serial_controller callback_data_packet_t) :
  exists rest,
    trace (writePacket packet c).2
    = trace c
        ++ EvLog DEBUG "To be written"
        :: EvWrite (take (Z.to_nat (LNG_PACKET_HEADER + pkt_length packet + 1))
                      (build_pkg packet))
        :: rest /\
    (rest = [] \/ exists lvl text, rest = [EvLog lvl text]).
Proof.
  unfold writePacket.
  destruct c as [[op oo rx [|[n| |] wr]] st sp hm ls d tr]; simpl;
    try destruct (_ =? _); simpl; rewrite <- ?app_assoc; simpl;
    eexists; (split; [reflexivity | eauto]).
Qed.

(** X7: once the stop flag is set, a send on an open port still writes its
    frame but never waits for the reply: it returns false with
    [SERIAL_EMPTY], makes no [waitReadable] or [read] call, and leaves the
    answers of the port unread. *)
Theorem send_while_stopping (fuel : nat) (frame : packet_information_t)
    (c : serial_controller callback_data_packet_t) :
  mStopping c = true ->
  port_isOpen (mSerial c) = true ->
  exists c',
    sendSerialFrame1 indeterminate fuel frame c = Returns (false, c') /\
    getStatus c' = SERIAL_EMPTY /\
    port_rx (mSerial c') = port_rx (mSerial c) /\
    transmitted (appended c c')
    = [EvWrite (take (Z.to_nat (LNG_PACKET_HEADER
                                + pkt_length (encoderSingle frame) + 1))
                  (build_pkg (encoderSingle frame)))] /\
    (EvWaitReadable ∉ appended c c') /\
    (EvRead ∉ appended c c').
Proof.
  intros Hstop Hopen. unfold sendSerialFrame1, sendSerialPacket, readPacket.
  rewrite Hopen.
  destruct (writePacket_keeps (encoderSingle frame) c) as [Hs Hrx].
  destruct (writePacket_trace (encoderSingle frame) c) as (rest & Htr & Hshape).
  destruct (writePacket (encoderSingle frame) c) as [w c1]. simpl in *.
  rewrite readPacket_from_stopping by congruence. simpl.
  eexists. split; [reflexivity|]. simpl. split; [done|]. split; [done|].
  unfold appended. simpl. rewrite Htr, drop_app_length.
  destruct Hshape as [-> | (lvl & text & ->)]; (split; [done|]);
    split; intros Hin; repeat (apply elem_of_cons in Hin as [Hin|Hin]; [done|]);
    by apply elem_of_nil in Hin.
Qed.

Lemma parse_packet_agree fuel receive b
    (c1 c1' c2 : serial_controller callback_data_packet_t) :
  parse_packet indeterminate fuel receive c1 = Returns (b, c1') ->
  exists c2', parse_packet indeterminate fuel receive c2 = Returns (b, c2').
Proof.
  rewrite !parse_packet_decode. destruct (0 <? pkt_length receive).
  - destruct (decode indeterminate fuel receive) as [infos| | |]; simpl; try done.
    intros [= <- _]. eauto.
  - intros [= <- _]. eauto.
Qed.

(** X8: what the write does is lost on the caller of a send.  Whether
    [write] succeeds, writes short or throws, the send goes on to wait for
    the reply, and it returns the same value, with the same status and the
    same decoder state, as it would have after a clean write. *)
Theorem write_outcome_ignored (fuel : nat) (frame : packet_information_t)
    (wr wr' : list write_result) (b : bool)
    (c c1' : serial_controller callback_data_packet_t) :
  sendSerialFrame1 indeterminate fuel frame (set_port_wr wr c) = Returns (b, c1') ->
  exists c2',
    sendSerialFrame1 indeterminate fuel frame (set_port_wr wr' c) = Returns (b, c2') /\
    getStatus c2' = getStatus c1' /\
    orb c2' = orb c1' /\
    port_rx (mSerial c2') = port_rx (mSerial c1').
Proof.
  unfold sendSerialFrame1, sendSerialPacket, readPacket. simpl.
  destruct (port_isOpen (mSerial c)) eqn:Hopen.
  - destruct (writePacket_keeps (encoderSingle frame) (set_port_wr wr c)) as [Hs1 Hrx1].
    destruct (writePacket_keeps (encoderSingle frame) (set_port_wr wr' c)) as [Hs2 Hrx2].
    destruct (writePacket_keeps_orb (encoderSingle frame) (set_port_wr wr c)) as [Ho1 _].
    destruct (writePacket_keeps_orb (encoderSingle frame) (set_port_wr wr' c)) as [Ho2 _].
    destruct (writePacket (encoderSingle frame) (set_port_wr wr c)) as [w1 a1].
    destruct (writePacket (encoderSingle frame) (set_port_wr wr' c)) as [w2 a2].
    simpl in *. rewrite Hrx1, Hrx2.
    destruct (readPacket_from_agree (port_rx (mSerial c)) a1 a2)
      as (Hb & Horb & Hrx & _); [congruence..|].
    destruct (readPacket_from (port_rx (mSerial c)) a1) as [complete r1].
    destruct (readPacket_from (port_rx (mSerial c)) a2) as [complete2 r2].
    simpl in *. subst complete2.
    assert (forall receive,
              parse_packet indeterminate fuel receive r1 = Returns (b, c1') ->
              exists c2',
                parse_packet indeterminate fuel receive r2 = Returns (b, c2') /\
                getStatus c2' = getStatus c1' /\ orb c2' = orb c1' /\
                port_rx (mSerial c2') = port_rx (mSerial c1')) as Hparse.
    { intros receive Hp1.
      destruct (parse_packet_agree fuel receive b r1 c1' r2 Hp1) as [c2' Hp2].
      exists c2'. split; [exact Hp2|].
      apply parse_packet_result in Hp1 as (Hst1 & _ & _ & _ & Hser1 & Ho1' & _).
      apply parse_packet_result in Hp2 as (Hst2 & _ & _ & _ & Hser2 & Ho2' & _).
      unfold getStatus. rewrite Hst1, Hst2, Ho1', Ho2', Hser1, Hser2. done. }
    destruct complete; [rewrite <- Horb|]; apply Hparse.
  - simpl. intros [= <- <-]. eexists. split; [reflexivity|]. done.
Qed.

Lemma feed_app r1 : forall r2 d,
  feed (r1 ++ r2) d
  = if (feed r1 d).2 then feed r1 d else feed r2 (feed r1 d).1.
Proof.
  induction r1 as [|data r1 IH]; intros r2 d; simpl; [done|].
  destruct (decode_pkgs d data) as [d' [|]]; [done|]. apply IH.
Qed.

(** X9: framing does not depend on how the port cuts the reply into reads.
    When the first read does not complete a frame, two reads are decoded
    like one read of their concatenation: [readPacket] gives the same
    answer, decoder state, status and remaining input.  But once a byte
    completes a frame, the rest of that read is dropped unseen. *)
Theorem read_granularity (r1 r2 : list Z) (rx : list read_result)
    (c : serial_controller callback_data_packet_t) :
  mStopping c = false ->
  ((feed r1 (orb c)).2 = false ->
   (readPacket_from (Data r1 :: Data r2 :: rx) c).1
   = (readPacket_from (Data (r1 ++ r2) :: rx) c).1 /\
   orb (readPacket_from (Data r1 :: Data r2 :: rx) c).2
   = orb (readPacket_from (Data (r1 ++ r2) :: rx) c).2 /\
   mStatus (readPacket_from (Data r1 :: Data r2 :: rx) c).2
   = mStatus (readPacket_from (Data (r1 ++ r2) :: rx) c).2 /\
   port_rx (mSerial (readPacket_from (Data r1 :: Data r2 :: rx) c).2)
   = port_rx (mSerial (readPacket_from (Data (r1 ++ r2) :: rx) c).2)) /\
  ((feed r1 (orb c)).2 = true ->
   readPacket_from (Data (r1 ++ r2) :: rx) c = readPacket_from (Data r1 :: rx) c).
Proof.
  intros Hrun. split; intros Hfeed.
  - cbn [readPacket_from]. rewrite Hrun. cbn [orb emit set_orb mStopping].
    rewrite Hrun, feed_app, Hfeed.
    destruct (feed r1 (orb c)) as [d1 complete1]. simpl in Hfeed. subst complete1.
    cbn [fst snd].
    destruct (feed r2 d1) as [d2 [|]]; [done|].
    match goal with
    | |- (readPacket_from rx ?a).1 = (readPacket_from rx ?b).1 /\ _ =>
        destruct (readPacket_from_agree rx a b) as (? & ? & ? & ? & Hst); [done..|]
    end.
    repeat split; try done. by apply Hst.
  - cbn [readPacket_from]. rewrite Hrun. cbn [orb emit set_orb].
    rewrite feed_app, Hfeed.
    destruct (feed r1 (orb c)) as [d1 complete1]. simpl in Hfeed. by subst complete1.
Qed.

(** X10: one [sendList], one frame.  When the pending sub-packets are valid,
    fit the frame and the port is open, [sendList] makes exactly one write,
    whatever the reply: the frame built from the packet that holds the
    sub-packets back to back in queue order, cut at header + length + 1
    bytes. *)
Theorem sendList_writes_one_frame (fuel : nat) (b : bool)
    (c c' : serial_controller callback_data_packet_t) :
  list_send c <> [] ->
  Forall valid (list_send c) ->
  total_length (list_send c) <= MAX_BUFF_TX ->
  port_isOpen (mSerial c) = true ->
  sendList indeterminate fuel c = Returns (b, c') ->
  transmitted (trace c')
  = transmitted (trace c)
      ++ [EvWrite (take (Z.to_nat (LNG_PACKET_HEADER
                                   + total_length (list_send c) + 1))
                     (build_pkg (mk_packet (flat_map encode_info (list_send c))
                                   (total_length (list_send c)))))].
Proof.
  intros Hne Hv Hfit Hopen Hsend.
  apply sendList_inv in Hsend as (c1 & Hframe & ->).
  apply (sendSerialFrame_transmitted fuel b (list_send c) (emit EvLock c) c1 Hne Hv Hfit
           Hopen) in Hframe.
  assert (transmitted (trace (emit EvUnlock (if b then set_list_send [] c1 else c1)))
          = transmitted (trace c1)) as ->
    by (destruct b; simpl; rewrite transmitted_app; simpl; apply app_nil_r).
  rewrite Hframe. simpl. rewrite transmitted_app. simpl. by rewrite app_nil_r.
Qed.

(** Between its lock and its unlock, [sendList] writes at most one frame. *)
Lemma sendList_trace fuel b (c c' : serial_controller callback_data_packet_t) :
  sendList indeterminate fuel c = Returns (b, c') ->
  exists io,
    trace c' = trace c ++ [EvLock] ++ io ++ [EvUnlock] /\
    Forall (fun e => is_mutex e = false) io /\
    (length (transmitted io) <= 1)%nat.
Proof.
  intros Hsend. apply sendList_inv in Hsend as (c1 & Hframe & ->).
  assert (exists io,
            trace c1 = trace (emit EvLock c) ++ io /\
            Forall (fun e => is_mutex e = false) io /\
            (length (transmitted io) <= 1)%nat) as (io & Hio & Hquiet & Hone).
  { revert Hframe. unfold sendSerialFrame.
    destruct (list_send c) as [|p batch]; cbn [length Nat.eqb negb].
    - intros [= <- <-]. exists []. rewrite app_nil_r.
      split; [done|]. split; [constructor | simpl; lia].
    - destruct (encoder (p :: batch)) as [packet n].
      destruct (n =? S (length batch))%nat.
      + pose proof (sendSerialPacket_io packet (emit EvLock c))
          as (_ & _ & _ & _ & io & Hio & Hioq).
        pose proof (sendSerialPacket_transmitted packet (emit EvLock c)) as Htx.
        destruct (sendSerialPacket packet (emit EvLock c)) as [receive c2].
        cbn [snd] in Hio, Htx. intros Hparse.
        pose proof (parse_packet_not_mutex indeterminate _ _ _ _ _ Hparse)
          as (more & Hmore & Hmq).
        apply parse_packet_result in Hparse as (_ & _ & _ & _ & _ & _ & _ & Hkeep).
        exists (io ++ more). split; [by rewrite Hmore, Hio, app_assoc|].
        split; [apply Forall_app; split; [by apply io_event_not_mutex | done]|].
        assert (transmitted more = []) as Hsilent.
        { apply (app_inv_head (transmitted (trace c2))).
          by rewrite app_nil_r, <- transmitted_app, <- Hmore. }
        rewrite Hio, transmitted_app in Htx. apply app_inv_head in Htx.
        rewrite transmitted_app, Hsilent, app_nil_r, Htx.
        destruct (port_isOpen _); simpl; lia.
      + intros [= <- <-]. exists [EvLog ERROR "Buffer FULL"]. simpl.
        split; [done|]. split; [by repeat constructor | lia]. }
  exists io. split; [|done].
  assert (trace (emit EvUnlock (if b then set_list_send [] c1 else c1))
          = trace c1 ++ [EvUnlock]) as -> by (by destruct b).
  rewrite Hio. simpl. by rewrite <- !app_assoc.
Qed.

End RoundTrips.

(** * What [start] returns, and when it does not return *)

Section Startup.

Context {callback_data_packet_t : Type} `{or_bus}.
Variable indeterminate : Z -> list Z.

(** A [readPacket] that returns true has read from the port. *)
Lemma readPacket_from_complete rx :
  forall c c' : serial_controller callback_data_packet_t,
    readPacket_from rx c = (true, c') ->
    exists mid, trace c' = trace c ++ mid /\ EvRead ∈ mid.
Proof.
  induction rx as [|r rx IH]; intros c c'; simpl.
  - by destruct (mStopping c).
  - destruct (mStopping c); [done|].
    destruct r as [|reply| |]; try done.
    destruct (feed reply _) as [d [|]].
    + intros [= <-]. simpl. eexists. rewrite <- !app_assoc. split; [reflexivity|].
      simpl. apply list_elem_of_further, list_elem_of_here.
    + intros Hrest. apply IH in Hrest as (mid & -> & Hin). simpl.
      eexists. rewrite <- !app_assoc. split; [reflexivity|].
      simpl. apply list_elem_of_further, list_elem_of_here.
Qed.

(** C7 (the code does not do this in every case): [start] returns true only
    after both steps.  The port has opened, the controller runs, and the
    probe has made its round trip: after the flush, one frame is written,
    the request of category 0 without payload, then the port is read, and
    the reply has a positive length; nothing else is written.  Given the
    reply that [sendSerialPacket] hands back for the probe, a reply of
    positive length whose walk returns makes [start] return true, and a
    reply of length zero (time-out, read error, no frame) makes it return
    false; so does an [IOException] while the port is opened, or a port that
    is not open afterwards, with one error line and no call of the port.
    But two failures are not returned.  An exception other than
    [IOException] raised while the port is opened is not caught: it leaves
    [start].  And when the reply to the probe starts with a self-length of
    zero, [start] never returns, whatever the fuel. *)
Theorem start_failure_not_returned (fuel : nat)
    (c : serial_controller callback_data_packet_t) :
  let probe := mk_packet [4; 0; PACKET_REQUEST; 0] 4 in
  let opened :=
    emit EvFlush
      (set_mStopping false
         (emit (EvLog DEBUG "Serial Port correctly initialized")
            (set_port_isOpen true c))) in
  (forall c',
     start indeterminate fuel c = Returns (true, c') ->
     port_open (mSerial c) = Opened true /\
     port_isOpen (mSerial c') = true /\ mStopping c' = false /\
     getStatus c' = SERIAL_OK /\
     0 < pkt_length (mReceive_of (orb c')) /\
     exists io,
       trace c'
       = trace c
           ++ [EvLog DEBUG "Serial Port correctly initialized"; EvFlush;
               EvLog DEBUG "To be written";
               EvWrite (take (Z.to_nat (LNG_PACKET_HEADER + 4 + 1)) (build_pkg probe))]
           ++ io /\
       EvRead ∈ io /\ transmitted io = []) /\
  (port_open (mSerial c) = Opened true ->
   forall receive c1,
     sendSerialPacket probe opened = (receive, c1) ->
     (0 < pkt_length receive ->
      forall c2,
        parse_loop indeterminate fuel receive 0 c1 = Returns c2 ->
        start indeterminate fuel c
        = Returns (true,
                   emit (EvLog DEBUG "Serial port ready")
                     (emit (EvLog DEBUG "ORBUS Connection started")
                        (set_mStatus SERIAL_OK c2)))) /\
     (pkt_length receive <= 0 ->
      start indeterminate fuel c
      = Returns (false,
                 emit (EvLog ERROR "ORBUS does not found")
                   (set_mStatus SERIAL_EMPTY c1))) /\
     (0 < pkt_length receive ->
      pkt_buffer receive !! 0%nat = Some 0 ->
      start indeterminate fuel c = OutOfFuel)) /\
  (port_open (mSerial c) = OpenIOException \/ port_open (mSerial c) = Opened false ->
   exists c' text,
     start indeterminate fuel c = Returns (false, c') /\
     trace c' = trace c ++ [EvLog ERROR text]) /\
  (forall e,
     port_open (mSerial c) = OpenOtherException e ->
     start indeterminate fuel c = Throws e).
Proof.
  intros probe opened.
  assert (forall receive c1,
            port_open (mSerial c) = Opened true ->
            sendSerialPacket probe opened = (receive, c1) ->
            start indeterminate fuel c
            = '(alive, c2) ← parse_packet indeterminate fuel receive c1;
              if alive : bool then
                Returns (true,
                         emit (EvLog DEBUG "Serial port ready")
                           (emit (EvLog DEBUG "ORBUS Connection started") c2))
              else Returns (false, emit (EvLog ERROR "ORBUS does not found") c2))
    as Hstart.
  { intros receive c1 Hopen Hsend. unfold start. rewrite Hopen. cbn [set_port_isOpen].
    simpl. unfold isAlive, sendSerialFrame1.
    change (encoderSingle (CREATE_PACKET_RESPONSE 0 0 PACKET_REQUEST)) with probe.
    fold opened in Hsend |- *.
    change (sendSerialPacket probe _) with (sendSerialPacket probe opened).
    by rewrite Hsend. }
  split; [|split; [|split]].
  - intros c' Hret.
    destruct (port_open (mSerial c)) as [[|]| |] eqn:Hopen;
      [|unfold start in Hret; rewrite Hopen in Hret; simpl in Hret; done..].
    split; [done|].
    destruct (sendSerialPacket probe opened) as [receive c1] eqn:Hsend.
    rewrite (Hstart receive c1 eq_refl eq_refl) in Hret. clear Hstart.
    destruct (parse_packet indeterminate fuel receive c1) as [[[|] c2]| | |] eqn:Hparse;
      simpl in Hret; try done.
    injection Hret as <-.
    pose proof (parse_packet_not_mutex indeterminate _ _ _ _ _ Hparse) as (more & Hmore & _).
    apply parse_packet_result in Hparse
      as (Hst & Hpos & _ & _ & Hser & Horb & Hstop & Htx).
    symmetry in Hpos. apply Z.ltb_lt in Hpos.
    unfold sendSerialPacket in Hsend.
    change (port_isOpen (mSerial opened)) with true in Hsend. cbv iota in Hsend.
    destruct (writePacket_trace probe opened) as (rest & Hw & _).
    pose proof (writePacket_transmitted probe opened) as Hwt.
    pose proof (writePacket_keeps probe opened) as [Hws _].
    pose proof (writePacket_keeps_orb probe opened) as [_ Hwo].
    destruct (writePacket probe opened) as [w cw]. simpl in Hw, Hwt, Hws, Hwo.
    pose proof (readPacket_from_io (port_rx (mSerial cw)) cw) as (_ & _ & Hro & Hrs & _).
    pose proof (readPacket_from_transmitted (port_rx (mSerial cw)) cw) as Hrt.
    unfold readPacket in Hsend.
    destruct (readPacket_from (port_rx (mSerial cw)) cw) as [[|] cr] eqn:Hread;
      simpl in Hro, Hrs, Hrt; injection Hsend as <- <-; [|simpl in Hpos; lia].
    apply readPacket_from_complete in Hread as (mid & Hmid & Hin).
    simpl. rewrite Hser, Hstop, Hro, Hrs, Hwo, Hws, Horb.
    split; [done|]. split; [done|]. split; [done|]. split; [done|].
    exists (rest ++ mid ++ more
            ++ [EvLog DEBUG "ORBUS Connection started"; EvLog DEBUG "Serial port ready"]).
    split; [|split].
    + rewrite Hmore, Hmid, Hw. rewrite <- !app_assoc. reflexivity.
    + apply elem_of_app. right. apply elem_of_app. by left.
    + assert (transmitted rest = []) as Hrest.
      { rewrite Hw, !transmitted_app in Hwt. simpl in Hwt.
        apply app_inv_head in Hwt. by injection Hwt. }
      assert (transmitted mid = []) as Hquiet.
      { rewrite Hmid, transmitted_app in Hrt.
        apply (app_inv_head (transmitted (trace cw))). by rewrite app_nil_r. }
      assert (transmitted more = []) as Hsilent.
      { rewrite Hmore, transmitted_app in Htx.
        apply (app_inv_head (transmitted (trace cr))). by rewrite app_nil_r. }
      by rewrite !transmitted_app, Hrest, Hquiet, Hsilent.
  - intros Hopen receive c1 Hsend.
    rewrite (Hstart receive c1 Hopen Hsend). unfold parse_packet.
    split; [|split].
    + intros Hpos c2 Hloop. rewrite (proj2 (Z.ltb_lt _ _) Hpos), Hloop. done.
    + intros Hpos. by rewrite (proj2 (Z.ltb_ge _ _) Hpos).
    + intros Hpos Hzero. rewrite (proj2 (Z.ltb_lt _ _) Hpos).
      by rewrite (parse_loop_zero_self_length indeterminate fuel receive Hpos Hzero).
  - unfold start. intros [-> | ->]; simpl; eexists _, _; split; reflexivity.
  - intros e He. unfold start. by rewrite He.
Qed.

End Startup.

(** [start] on the small link: a port whose [open] raises a
    [SerialException], and a port that opens and answers the probe with a
    frame whose sub-packet has self-length zero. *)
Lemma start_failure_not_returned_witness :
  start (H := Demo.link) Demo.stale 2
    (Demo.fresh Demo.handlers
       (mk_serial false (OpenOtherException SerialException) [] []))
  = Throws SerialException /\
  (forall fuel,
     start (H := Demo.link) Demo.stale fuel
       (Demo.fresh Demo.handlers
          (mk_serial false (Opened true) [Data [4; 0; 0; 82; 0; 0]] []))
     = OutOfFuel).
Proof.
  split.
  - apply (proj2 (proj2 (proj2
             (start_failure_not_returned (H := Demo.link) Demo.stale 2
                (Demo.fresh Demo.handlers
                   (mk_serial false (OpenOtherException SerialException) [] [])))))).
    reflexivity.
  - intros fuel.
    pose proof (proj1 (proj2
                  (start_failure_not_returned (H := Demo.link) Demo.stale fuel
                     (Demo.fresh Demo.handlers
                        (mk_serial false (Opened true) [Data [4; 0; 0; 82; 0; 0]] []))))
                  eq_refl) as Hprobe.
    destruct (sendSerialPacket (H := Demo.link) (mk_packet [4; 0; 82; 0] 4)
                (emit EvFlush
                   (set_mStopping false
                      (emit (EvLog DEBUG "Serial Port correctly initialized")
                         (set_port_isOpen true
                            (Demo.fresh Demo.handlers
                               (mk_serial false (Opened true)
                                  [Data [4; 0; 0; 82; 0; 0]] [])))))))
      as [receive c1] eqn:Hsend.
    destruct (Hprobe receive c1 Hsend) as (_ & _ & Hloop).
    vm_compute in Hsend. injection Hsend as <- <-.
    apply Hloop; [simpl; lia | reflexivity].
Defined.

(** ** The properties above on the small link *)

Lemma addCallback_fresh_witness :
  (addCallback (H := Demo.link) "nine"%string 9 Demo.controller).1 = true /\
  hashmap (addCallback (H := Demo.link) "nine"%string 9 Demo.controller).2 !! 9
  = Some "nine"%string.
Proof.
  destruct (addCallback_fresh (H := Demo.link) Demo.controller 9
              "nine"%string "other"%string eq_refl) as (Hret & Hbound & _).
  split; [exact Hret | exact Hbound].
Defined.

Lemma sendList_nothing_pending_witness :
  exists c',
    sendList (H := Demo.link) Demo.stale 1 Demo.controller = Returns (true, c') /\
    appended Demo.controller c' = [EvLock; EvUnlock].
Proof.
  destruct (sendList_nothing_pending (H := Demo.link) Demo.stale 1 Demo.controller
              eq_refl) as (c' & Hret & Happ & _).
  exists c'. split; [exact Hret | exact Happ].
Defined.

Lemma sendList_queue_witness :
  exists c',
    sendList (H := Demo.link) Demo.stale 1 Demo.pending = Returns (false, c') /\
    list_send c' = Demo.batch.
Proof.
  eexists. split; [vm_compute; reflexivity|].
  refine (proj1 (sendList_queue (H := Demo.link) Demo.stale 1 false Demo.pending _ _)).
  vm_compute. reflexivity.
Defined.

Lemma send_status_by_result_witness :
  exists c',
    sendList (H := Demo.link) Demo.stale 1 Demo.pending = Returns (false, c') /\
    getStatus c' = SERIAL_EMPTY.
Proof.
  eexists. split; [vm_compute; reflexivity|].
  refine (proj2 (send_status_by_result (H := Demo.link) Demo.stale 1 Demo.pending)
            false _ _ _).
  - discriminate.
  - vm_compute. reflexivity.
Defined.

Lemma send_on_closed_port_witness :
  sendSerialFrame1 (H := Demo.link) Demo.stale 1 (CREATE_PACKET_RESPONSE 1 5 82)
    (set_port_isOpen false Demo.controller)
  = Returns (false, set_mStatus SERIAL_EMPTY (set_port_isOpen false Demo.controller)).
Proof.
  exact (proj1 (send_on_closed_port (H := Demo.link) Demo.stale 1
                  (CREATE_PACKET_RESPONSE 1 5 82)
                  (set_port_isOpen false Demo.controller) eq_refl)).
Defined.

Lemma send_while_stopping_witness :
  exists c',
    sendSerialFrame1 (H := Demo.link) Demo.stale 1 (CREATE_PACKET_RESPONSE 0 0 82)
      (set_mStopping true Demo.answered)
    = Returns (false, c') /\
    getStatus c' = SERIAL_EMPTY /\
    port_rx (mSerial c') = [Data [4; 4; 0; 82; 0; 0]].
Proof.
  destruct (send_while_stopping (H := Demo.link) Demo.stale 1
              (CREATE_PACKET_RESPONSE 0 0 82) (set_mStopping true Demo.answered)
              eq_refl eq_refl) as (c' & Hret & Hst & Hrx & _).
  exists c'. split; [exact Hret|]. split; [exact Hst | exact Hrx].
Defined.

Lemma write_outcome_ignored_witness :
  exists c1' c2',
    sendSerialFrame1 (H := Demo.link) Demo.stale 2 (CREATE_PACKET_RESPONSE 0 0 82)
      (set_port_wr [WriteIOException] Demo.answered)
    = Returns (true, c1') /\
    sendSerialFrame1 (H := Demo.link) Demo.stale 2 (CREATE_PACKET_RESPONSE 0 0 82)
      (set_port_wr [] Demo.answered)
    = Returns (true, c2') /\
    getStatus c2' = getStatus c1'.
Proof.
  eexists.
  edestruct (write_outcome_ignored (H := Demo.link) Demo.stale 2
               (CREATE_PACKET_RESPONSE 0 0 82) [WriteIOException] [] true
               Demo.answered) as (c2' & Hret & Hst & _).
  - vm_compute. reflexivity.
  - exists c2'. split; [vm_compute; reflexivity|]. split; [exact Hret | exact Hst].
Defined.

Lemma read_granularity_witness :
  (readPacket_from (H := Demo.link) [Data [4; 4; 0]; Data [82; 0; 0]] Demo.controller).1
  = (readPacket_from (H := Demo.link) [Data [4; 4; 0; 82; 0; 0]] Demo.controller).1.
Proof.
  refine (proj1 (proj1 (read_granularity (H := Demo.link) [4; 4; 0] [82; 0; 0] []
                          Demo.controller eq_refl) eq_refl)).
Defined.

Lemma sendList_writes_one_frame_witness :
  exists c',
    sendList (H := Demo.link) Demo.stale 1 Demo.pending = Returns (false, c') /\
    transmitted (trace c') = [EvWrite [9; 5; 5; 0; 1; 7; 4; 7; 82; 2; 0]].
Proof.
  eexists. split; [vm_compute; reflexivity|].
  refine (sendList_writes_one_frame (H := Demo.link) Demo.stale 1 false
            Demo.pending _ _ _ _ eq_refl _).
  - discriminate.
  - repeat constructor; vm_compute; congruence.
  - vm_compute; congruence.
  - vm_compute. reflexivity.
Defined.

Lemma isAlive_true_reply_witness :
  port_isOpen (mSerial Demo.answered) = true /\
  exists c',
    isAlive (H := Demo.link) Demo.stale 2 Demo.answered = Returns (true, c') /\
    0 < pkt_length (mReceive_of (orb c')).
Proof.
  split; [reflexivity|]. eexists. split; [vm_compute; reflexivity|].
  refine (proj2 (isAlive_true_reply (H := Demo.link) Demo.stale 2 Demo.answered _ _)).
  vm_compute. reflexivity.
Defined.

Lemma start_failed_probe_leaves_port_open_witness :
  exists c',
    start (H := Demo.link) Demo.stale 2
      (Demo.fresh Demo.handlers (mk_serial false (Opened true) [] []))
    = Returns (false, c') /\
    port_isOpen (mSerial c') = true.
Proof.
  eexists. split; [vm_compute; reflexivity|].
  refine (start_failed_probe_leaves_port_open (H := Demo.link) Demo.stale 2
            (Demo.fresh Demo.handlers (mk_serial false (Opened true) [] [])) _
            eq_refl _).
  vm_compute. reflexivity.
Defined.

(** * The interfaces *)

Section SystemFrames.

Context `{or_bus} `{ORInterface.or_bus_system}.
Variable indeterminate : Z -> list Z.
Variable bitset_motor : Z -> Z.
Variable bitset_command : Z -> Z.

Import ORInterface.

Lemma system_labels_ne :
  SYSTEM_CODE_DATE <> SYSTEM_CODE_VERSION /\ SYSTEM_CODE_DATE <> SYSTEM_CODE_AUTHOR /\
  SYSTEM_CODE_DATE <> SYSTEM_CODE_BOARD_TYPE /\ SYSTEM_CODE_DATE <> SYSTEM_CODE_BOARD_NAME /\
  SYSTEM_CODE_VERSION <> SYSTEM_CODE_AUTHOR /\ SYSTEM_CODE_VERSION <> SYSTEM_CODE_BOARD_TYPE /\
  SYSTEM_CODE_VERSION <> SYSTEM_CODE_BOARD_NAME /\ SYSTEM_CODE_AUTHOR <> SYSTEM_CODE_BOARD_TYPE /\
  SYSTEM_CODE_AUTHOR <> SYSTEM_CODE_BOARD_NAME /\ SYSTEM_CODE_BOARD_TYPE <> SYSTEM_CODE_BOARD_NAME.
Proof.
  pose proof system_labels as Hnd.
  repeat match goal with
         | Hn : NoDup (_ :: _) |- _ => apply NoDup_cons in Hn as [? ?]
         end.
  repeat match goal with
         | Hin : _ ∉ _ :: _ |- _ => apply not_elem_of_cons in Hin as [? ?]
         end.
  repeat split; congruence.
Qed.

(** X13: a system frame changes the board information it names and nothing
    else.  Each of the five string commands stores the C string of the
    message in its own member; the four other strings, the connection flag
    and the timing message stay as they were, and nothing is published.  A
    command that is none of the six labels changes no member at all and
    adds one error line. *)
Theorem systemFrame_own_field (opt type command : Z) (message : list Z)
    (g g' : GenericInterface) :
  systemFrame opt type command message g = Returns g' ->
  serial_status g' = serial_status g /\
  (command <> SYSTEM_TIME -> msg g' = msg g /\ forall m, EvPublish m ∉ drop (length (out g)) (out g')) /\
  code_date g'
  = (if command =? SYSTEM_CODE_DATE
     then default (code_date g) (string_of_bytes <$> c_string (service_of message))
     else code_date g) /\
  code_version g'
  = (if command =? SYSTEM_CODE_VERSION
     then default (code_version g) (string_of_bytes <$> c_string (service_of message))
     else code_version g) /\
  code_author g'
  = (if command =? SYSTEM_CODE_AUTHOR
     then default (code_author g) (string_of_bytes <$> c_string (service_of message))
     else code_author g) /\
  code_board_type g'
  = (if command =? SYSTEM_CODE_BOARD_TYPE
     then default (code_board_type g) (string_of_bytes <$> c_string (service_of message))
     else code_board_type g) /\
  code_board_name g'
  = (if command =? SYSTEM_CODE_BOARD_NAME
     then default (code_board_name g) (string_of_bytes <$> c_string (service_of message))
     else code_board_name g) /\
  (command ∉ [SYSTEM_CODE_DATE; SYSTEM_CODE_VERSION; SYSTEM_CODE_AUTHOR;
              SYSTEM_CODE_BOARD_TYPE; SYSTEM_CODE_BOARD_NAME; SYSTEM_TIME] ->
   g' = note (EvRos ERROR "System message does not implemented")
          (note (EvRos DEBUG "Frame") g)).
Proof.
  destruct system_labels_ne as (? & ? & ? & ? & ? & ? & ? & ? & ? & ?).
  unfold systemFrame, service_string.
  assert (forall m, EvPublish m ∉ drop (length (out g)) (out g ++ [EvRos DEBUG "Frame"]))
    as Hquiet.
  { intros m. rewrite drop_app_length. intros Hin.
    apply list_elem_of_singleton in Hin. discriminate. }
  destruct (command =? SYSTEM_CODE_DATE) eqn:E1;
    [apply Z.eqb_eq in E1 | apply Z.eqb_neq in E1].
  { subst command.
    rewrite !(proj2 (Z.eqb_neq SYSTEM_CODE_DATE _)) by congruence.
    destruct (c_string (service_of message)); simpl; [|done].
    intros [= <-]. simpl. repeat split; try done.
    intros Hnot. exfalso. apply Hnot. apply list_elem_of_here. }
  destruct (command =? SYSTEM_CODE_VERSION) eqn:E2;
    [apply Z.eqb_eq in E2 | apply Z.eqb_neq in E2].
  { subst command.
    rewrite !(proj2 (Z.eqb_neq SYSTEM_CODE_VERSION _)) by congruence.
    destruct (c_string (service_of message)); simpl; [|done].
    intros [= <-]. simpl. repeat split; try done.
    intros Hnot. exfalso. apply Hnot. do 1 apply list_elem_of_further. apply list_elem_of_here. }
  destruct (command =? SYSTEM_CODE_AUTHOR) eqn:E3;
    [apply Z.eqb_eq in E3 | apply Z.eqb_neq in E3].
  { subst command.
    rewrite !(proj2 (Z.eqb_neq SYSTEM_CODE_AUTHOR _)) by congruence.
    destruct (c_string (service_of message)); simpl; [|done].
    intros [= <-]. simpl. repeat split; try done.
    intros Hnot. exfalso. apply Hnot. do 2 apply list_elem_of_further. apply list_elem_of_here. }
  destruct (command =? SYSTEM_CODE_BOARD_TYPE) eqn:E4;
    [apply Z.eqb_eq in E4 | apply Z.eqb_neq in E4].
  { subst command.
    rewrite !(proj2 (Z.eqb_neq SYSTEM_CODE_BOARD_TYPE _)) by congruence.
    destruct (c_string (service_of message)); simpl; [|done].
    intros [= <-]. simpl. repeat split; try done.
    intros Hnot. exfalso. apply Hnot. do 3 apply list_elem_of_further. apply list_elem_of_here. }
  destruct (command =? SYSTEM_CODE_BOARD_NAME) eqn:E5;
    [apply Z.eqb_eq in E5 | apply Z.eqb_neq in E5].
  { subst command.
    destruct (c_string (service_of message)); simpl; [|done].
    intros [= <-]. simpl. repeat split; try done.
    intros Hnot. exfalso. apply Hnot. do 4 apply list_elem_of_further. apply list_elem_of_here. }
  destruct (command =? SYSTEM_TIME) eqn:E6;
    [apply Z.eqb_eq in E6 | apply Z.eqb_neq in E6].
  { intros [= <-]. simpl. repeat split; try done.
    intros Hnot. exfalso. apply Hnot. rewrite E6.
    do 5 apply list_elem_of_further. apply list_elem_of_here. }
  intros [= <-]. simpl. split; [done|]. split; [|repeat split; done].
  intros _. split; [done|]. intros m0.
  rewrite <- app_assoc, drop_app_length. intros Hin.
  repeat (apply elem_of_cons in Hin as [Hin|Hin]; [done|]).
  by apply elem_of_nil in Hin.
Qed.

(** X14: from the wire to the handler.  When the frame [parse_packet] is
    given holds one valid sub-packet whose category is bound to
    [systemFrame], the call returns true and the object ends as
    [systemFrame] leaves it when called once with the option, category and
    command bytes of the sub-packet; the message it is handed starts with
    the payload and goes on with what the stack object [info] held. *)
Theorem reply_runs_systemFrame (fuel : nat) (receive : packet_t)
    (p : packet_information_t) (rest : list Z)
    (c : serial_controller handler) (obj : object) :
  valid p ->
  pkt_buffer receive = encode_info p ++ rest ->
  pkt_length receive = info_length p ->
  (2 <= fuel)%nat ->
  info_type p <> 0 ->
  hashmap c !! info_type p = Some SystemFrame ->
  exists c' message,
    parse_packet indeterminate fuel receive c = Returns (true, c') /\
    take (Z.to_nat (info_length p - LNG_HEAD_INFORMATION_PACKET)) message = payload p /\
    deliver bitset_motor bitset_command (appended c c') obj
    = (g ← systemFrame (info_option p) (info_type p) (info_command p) message obj.1;
       Returns (g, obj.2)).
Proof.
  intros Hv Hbuf Hlen Hfuel Hnz Hbound.
  assert (decode_loop indeterminate fuel receive 0
          = Returns (copied_from indeterminate 0 [p])) as Hdec.
  { apply (decode_loop_batch indeterminate [p] fuel receive [] rest).
    - by constructor.
    - simpl. by rewrite app_nil_r.
    - simpl. lia.
    - simpl. lia. }
  destruct (copied_fields indeterminate 0 p Hv) as (Hl & Ht & Ho & Hc & Hp).
  exists (set_mStatus SERIAL_OK
            (set_trace (trace c ++ [EvCallback SystemFrame (info_option p) (info_type p)
                                      (info_command p)
                                      (info_message (copied indeterminate 0 p))]) c)),
         (info_message (copied indeterminate 0 p)).
  split; [|split].
  - rewrite parse_packet_decode. unfold decode. rewrite Hdec, Hlen.
    destruct Hv as [[Hlo _] _]. unfold LNG_HEAD_INFORMATION_PACKET in Hlo.
    rewrite (proj2 (Z.ltb_lt _ _)) by lia. simpl.
    rewrite dispatch_set_trace. unfold dispatch_events.
    by rewrite Ht, Ho, Hc, Hbound, (proj2 (Z.eqb_neq _ _) Hnz).
  - rewrite <- Hp. unfold payload. by rewrite Hl.
  - unfold appended. simpl. rewrite drop_app_length. simpl.
    by destruct (systemFrame _ _ _ _ _).
Qed.

Lemma mSerial_sendList_inv fuel obj (c : serial_controller handler) sent obj' c' :
  mSerial_sendList indeterminate bitset_motor bitset_command fuel obj c
  = Returns (sent, obj', c') ->
  sendList indeterminate fuel c = Returns (sent, c') /\
  deliver bitset_motor bitset_command (appended c c') obj = Returns obj'.
Proof.
  unfold mSerial_sendList.
  destruct (sendList indeterminate fuel c) as [[s1 c1]| | |]; simpl; try done.
  destruct (deliver bitset_motor bitset_command (appended c c1) obj) as [o1| | |] eqn:Hd;
    simpl; try done.
  intros [= <- <- <-]. by rewrite Hd.
Qed.

(** X15: a reset request, in any letter case, is queued behind what is
    pending and the queue is sent once: the call takes and releases the
    mutex to queue the request, then takes it once more, writes at most one
    frame and releases it.  When what is pending is valid and fits the frame
    with the request, and the port is open, exactly one frame is written,
    and it holds the pending sub-packets with the reset request last.  The
    service answers true and leaves the response text alone whether or not
    the board replied.  When the send failed (status [SERIAL_EMPTY]) the
    whole queue, the reset request last, is still pending; otherwise the
    queue is empty. *)
Theorem service_reset (fuel : nat) (service information : string) (obj : object)
    (c : serial_controller handler)
    (b : bool) (service' information' : string) (obj' : object)
    (c' : serial_controller handler) :
  let queue :=
    list_send c ++ [CREATE_PACKET_RESPONSE SYSTEM_RESET HASHMAP_SYSTEM PACKET_REQUEST] in
  transform_tolower service = "reset"%string ->
  service_Callback indeterminate bitset_motor bitset_command fuel
    service information obj c
  = Returns (b, service', information', obj', c') ->
  b = true /\ service' = "reset"%string /\ information' = information /\
  hashmap c' = hashmap c /\
  (getStatus c' = SERIAL_EMPTY -> list_send c' = queue) /\
  (getStatus c' <> SERIAL_EMPTY -> list_send c' = []) /\
  (exists io,
     trace c' = trace c ++ [EvLock; EvUnlock; EvLock] ++ io ++ [EvUnlock] /\
     Forall (fun e => is_mutex e = false) io /\
     (length (transmitted io) <= 1)%nat) /\
  (Forall valid (list_send c) ->
   total_length queue <= MAX_BUFF_TX ->
   port_isOpen (mSerial c) = true ->
   transmitted (trace c')
   = transmitted (trace c)
       ++ [EvWrite (take (Z.to_nat (LNG_PACKET_HEADER + total_length queue + 1))
                      (build_pkg (mk_packet (flat_map encode_info queue)
                                    (total_length queue))))]).
Proof.
  intros queue Hreset. unfold service_Callback. rewrite Hreset. simpl.
  destruct (mSerial_sendList _ _ _ _ _ _) as [[[sent o1] c1]| | |] eqn:Hsend;
    simpl; try done.
  intros [= <- <- <- <- <-].
  apply mSerial_sendList_inv in Hsend as [Hsend _].
  pose proof (sendList_result indeterminate fuel sent _ _ Hsend) as (Hq & Hh & Hst).
  simpl in Hq, Hh, Hst.
  specialize (Hst ltac:(by destruct (list_send c))).
  split; [done|]. split; [done|]. split; [done|]. split; [done|].
  split; [|split; [|split]].
  - intros Hempty. destruct sent; [|done]. rewrite Hempty in Hst.
    by destruct (_ =? _)%nat.
  - intros Hne. destruct sent; [done|]. by rewrite Hst in Hne.
  - destruct (sendList_trace indeterminate fuel sent _ _ Hsend) as (io & Hio & Hquiet & Hone).
    exists io. split; [|done]. rewrite Hio. simpl. by rewrite <- !app_assoc.
  - intros Hv Hfit Hopen.
    apply sendList_inv in Hsend as (c4 & Hframe & ->).
    assert (transmitted (trace (emit EvUnlock (if sent then set_list_send [] c4 else c4)))
            = transmitted (trace c4)) as ->
      by (destruct sent; simpl; rewrite transmitted_app; simpl; apply app_nil_r).
    change (list_send (addFrame _ c)) with queue in Hframe.
    apply (sendSerialFrame_transmitted indeterminate fuel sent queue) in Hframe.
    + rewrite Hframe. simpl. rewrite !transmitted_app. simpl.
      by rewrite !app_nil_r.
    + subst queue. by destruct (list_send c).
    + apply Forall_app. split; [done|]. apply Forall_cons_2; [|apply Forall_nil_2].
      unfold valid, CREATE_PACKET_RESPONSE, sizeof_info, LNG_HEAD_INFORMATION_PACKET.
      simpl. lia.
    + done.
    + done.
Qed.

Lemma tolower_idempotent a : tolower (tolower a) = tolower a.
Proof. destruct a as [[] [] [] [] [] [] [] []]; reflexivity. Qed.

Lemma transform_tolower_idempotent s :
  transform_tolower (transform_tolower s) = transform_tolower s.
Proof.
  induction s as [|a s IH]; simpl; [done|]. by rewrite tolower_idempotent, IH.
Qed.

(** X16: the service does not look at the letter case of the request, and a
    request that is neither "info" nor "reset" once in lower case gets the
    help text; like "info", it leaves the object and the controller
    untouched and the port unused.  The service answers true in all of
    these cases. *)
Theorem service_ignores_case (fuel : nat) (service information : string)
    (obj : object) (c : serial_controller handler) :
  service_Callback indeterminate bitset_motor bitset_command fuel
    service information obj c
  = service_Callback indeterminate bitset_motor bitset_command fuel
      (transform_tolower service) information obj c /\
  (transform_tolower service = "info"%string ->
   service_Callback indeterminate bitset_motor bitset_command fuel
     service information obj c
   = Returns (true, "info"%string, info_text obj.1, obj, c)) /\
  (transform_tolower service <> "info"%string ->
   transform_tolower service <> "reset"%string ->
   service_Callback indeterminate bitset_motor bitset_command fuel
     service information obj c
   = Returns (true, transform_tolower service, help_text obj.1, obj, c)).
Proof.
  unfold service_Callback. rewrite transform_tolower_idempotent.
  split; [done|]. split.
  - by intros ->.
  - intros Hinfo Hreset.
    apply String.eqb_neq in Hinfo, Hreset. by rewrite Hinfo, Hreset.
Qed.






(** X18: [run] reports the board as ready, level OK, after every call,
    whether its timing request was answered or not.  It appends ten entries
    to the status, in a fixed order, whose values are the members of the
    object as they are once the reply, if any, has been handled; and after
    a failed send the timing request is still pending. *)
Theorem run_reports_ready (fuel : nat) (stat stat' : DiagnosticStatusWrapper)
    (obj obj' : object) (c c' : serial_controller handler) :
  run indeterminate bitset_motor bitset_command fuel stat obj c
  = Returns (stat', obj', c') ->
  summary stat' = Some (OK, "Board ready!"%string) /\
  values stat'
  = values stat
      ++ [("Name board"%string, StatString (code_board_name obj'.1));
          ("Type board"%string, StatString (code_board_type obj'.1));
          ("Author"%string, StatString (code_author obj'.1));
          ("Version"%string, StatString (code_version obj'.1));
          ("Build"%string, StatString (code_date obj'.1));
          ("Idle (%)"%string, StatInt (idle (msg obj'.1)));
          ("ADC (nS)"%string, StatInt (ADC (msg obj'.1)));
          ("LED (nS)"%string, StatInt (led (msg obj'.1)));
          ("Serial parser (nS)"%string, StatInt (serial_parser (msg obj'.1)));
          ("I2C (nS)"%string, StatInt (I2C (msg obj'.1)))] /\
  (getStatus c' = SERIAL_EMPTY ->
   list_send c'
   = list_send c ++ [CREATE_PACKET_RESPONSE SYSTEM_TIME HASHMAP_SYSTEM PACKET_REQUEST]).
Proof.
  unfold run.
  destruct (mSerial_sendList _ _ _ _ _ _) as [[[sent o1] c1]| | |] eqn:Hsend;
    simpl; try done.
  intros [= <- <- <-].
  apply mSerial_sendList_inv in Hsend as [Hsend _].
  pose proof (sendList_result indeterminate fuel sent _ _ Hsend) as (Hq & _ & Hst).
  simpl in Hq, Hst.
  specialize (Hst ltac:(by destruct (list_send c))).
  split; [done|]. split.
  - unfold stat_add. simpl. rewrite <- !app_assoc. by destruct sent.
  - intros Hempty. destruct sent; [|done].
    rewrite Hempty in Hst. by destruct (_ =? _)%nat.
Qed.

End SystemFrames.

Section Motors.

Variable bitset_motor : Z -> Z.
Variable bitset_command : Z -> Z.

Import ORInterface.

Lemma init_motor_bound st i :
  Forall (fun name => is_Some (uNav.mMotor st.2 !! name)) (uNav.mMotorName st.2) ->
  Forall (fun name => is_Some (uNav.mMotor (init_motor st i).2 !! name))
    (uNav.mMotorName (init_motor st i).2) /\
  length (uNav.mMotorName (init_motor st i).2) = S (length (uNav.mMotorName st.2)).
Proof.
  destruct st as [params u]. unfold init_motor. intros Hbound.
  destruct (match params !! _ with
            | Some (PString joint) => (params, joint)
            | Some PNotString => (params, ""%string)
            | None => _
            end) as [params' motor_name].
  simpl. split; [|rewrite length_app; simpl; lia].
  apply Forall_app. split.
  - eapply Forall_impl; [exact Hbound|]. intros name [m Hm].
    destruct (decide (motor_name = name)) as [->|Hne].
    + rewrite lookup_insert_eq. eauto.
    + rewrite lookup_insert_ne by done. eauto.
  - constructor; [|constructor]. rewrite lookup_insert_eq. eauto.
Qed.

Lemma init_motors_from_bound numbers : forall st,
  Forall (fun name => is_Some (uNav.mMotor st.2 !! name)) (uNav.mMotorName st.2) ->
  Forall (fun name => is_Some (uNav.mMotor (foldl init_motor st numbers).2 !! name))
    (uNav.mMotorName (foldl init_motor st numbers).2) /\
  length (uNav.mMotorName (foldl init_motor st numbers).2)
  = (length (uNav.mMotorName st.2) + length numbers)%nat.
Proof.
  induction numbers as [|i numbers IH]; intros st Hbound; simpl.
  - split; [done|lia].
  - destruct (init_motor_bound st i Hbound) as [Hb Hl].
    destruct (IH (init_motor st i) Hb) as [Hb' Hl']. split; [done|]. lia.
Qed.

(** X19: whatever the parameter server holds, the constructor of
    [uNavInterface] leaves [NUM_MOTORS] names in [mMotorName], each of them a
    key of [mMotor].  So a motor frame whose motor number is below
    [NUM_MOTORS] always reaches a motor: [allMotorsFrame] returns and the
    one thing it does, after its debug line, is to hand the frame, with the
    command bits of the command byte, to the motor filed under the name at
    that index. *)
Theorem init_motors_names_bound (params : gmap string param_value)
    (opt type command : Z) (message : list Z) :
  length (uNav.mMotorName (init_motors params).2) = NUM_MOTORS /\
  Forall (fun name => is_Some (uNav.mMotor (init_motors params).2 !! name))
    (uNav.mMotorName (init_motors params).2) /\
  (0 <= bitset_motor command < Z.of_nat NUM_MOTORS ->
   exists name,
     uNav.mMotorName (init_motors params).2 !! Z.to_nat (bitset_motor command)
     = Some name /\
     uNav.allMotorsFrame bitset_motor bitset_command opt type command message
       (init_motors params).2
     = Returns (uNav.log (uNav.EvMotorFrame name opt type (bitset_command command)
                            message)
                  (uNav.log (uNav.EvRos DEBUG "Frame") (init_motors params).2))).
Proof.
  unfold init_motors.
  destruct (init_motors_from_bound (seq 0 NUM_MOTORS)
              (params, uNav.mk_unav [] ∅ [])) as [Hbound Hlen]; [constructor|].
  rewrite length_seq in Hlen. cbn [snd uNav.mMotorName length Nat.add] in Hlen.
  split; [exact Hlen|]. split; [exact Hbound|].
  intros [Hlo Hhi].
  set (u := (foldl init_motor (params, uNav.mk_unav [] ∅ []) (seq 0 NUM_MOTORS)).2) in *.
  destruct (lookup_lt_is_Some_2 (uNav.mMotorName u) (Z.to_nat (bitset_motor command)))
    as [name Hname]; [rewrite Hlen; lia|].
  exists name. split; [exact Hname|].
  unfold uNav.allMotorsFrame. simpl.
  rewrite (proj2 (Z.leb_le 0 _) Hlo). simpl.
  unfold uNav.to_size_t. rewrite Z.mod_small by (unfold NUM_MOTORS in Hhi; lia).
  rewrite Hname.
  rewrite Forall_lookup in Hbound. destruct (Hbound _ _ Hname) as [m ->].
  reflexivity.
Qed.

Lemma motor_name_0 : ("motor_" +:+ pretty 0%nat)%string = "motor_0"%string.
Proof. vm_compute. reflexivity. Qed.

Lemma motor_name_1 : ("motor_" +:+ pretty 1%nat)%string = "motor_1"%string.
Proof. vm_compute. reflexivity. Qed.

(** X20: how the motors get their names.  With no joint name on the
    parameter server the two motors are called motor_0 and motor_1, each
    name leads to its own motor, and both names are written back to the
    server.  When the server gives both motors the same joint name, the
    name is listed twice and leads to the motor built last: frames for
    motor number 0 then go to motor 1, and the server is left as it was. *)
Theorem motor_names (params : gmap string param_value) :
  (params !! "motor_0/name_joint"%string = None ->
   params !! "motor_1/name_joint"%string = None ->
   uNav.mMotorName (init_motors params).2 = ["motor_0"; "motor_1"]%string /\
   uNav.mMotor (init_motors params).2 !! "motor_0"%string = Some 0%nat /\
   uNav.mMotor (init_motors params).2 !! "motor_1"%string = Some 1%nat /\
   (init_motors params).1 !! "motor_0/name_joint"%string = Some (PString "motor_0") /\
   (init_motors params).1 !! "motor_1/name_joint"%string = Some (PString "motor_1")) /\
  (forall joint,
     params !! "motor_0/name_joint"%string = Some (PString joint) ->
     params !! "motor_1/name_joint"%string = Some (PString joint) ->
     uNav.mMotorName (init_motors params).2 = [joint; joint] /\
     uNav.mMotor (init_motors params).2 !! joint = Some 1%nat /\
     (init_motors params).1 = params).
Proof.
  unfold init_motors, NUM_MOTORS. cbn [seq foldl]. unfold init_motor.
  rewrite motor_name_0, motor_name_1.
  change ("motor_0" +:+ "/name_joint")%string with "motor_0/name_joint"%string.
  change ("motor_1" +:+ "/name_joint")%string with "motor_1/name_joint"%string.
  split.
  - intros H0 H1. rewrite H0. cbn [uNav.log uNav.mMotorName uNav.mMotor uNav.ros].
    rewrite lookup_insert_ne by done. rewrite H1. simpl.
    split; [done|]. split; [by rewrite lookup_insert_ne, lookup_insert_eq|].
    split; [by rewrite lookup_insert_eq|].
    split; [by rewrite lookup_insert_ne, lookup_insert_eq|].
    by rewrite lookup_insert_eq.
  - intros joint H0 H1. rewrite H0. cbn [uNav.log uNav.mMotorName uNav.mMotor uNav.ros].
    rewrite H1. simpl. split; [done|]. split; [|done].
    by rewrite lookup_insert_eq.
Qed.

Lemma switch_resources_ok ctl how ty res : forall calls u,
  Forall (fun r => is_Some (uNav.mMotor u !! r)) res ->
  exists new u',
    switch_resources ctl how ty res (calls, u) = Returns (calls ++ new, u') /\
    uNav.mMotor u' = uNav.mMotor u /\
    uNav.mMotorName u' = uNav.mMotorName u /\
    Forall2 (fun rt call => uNav.mMotor u !! rt.1 = Some call.1 /\ call.2 = rt.2)
      ((fun r => (r, ty)) <$> res) new.
Proof.
  induction res as [|r res IH]; intros calls u Hbound; simpl.
  - exists [], u. rewrite app_nil_r. repeat split; constructor.
  - inversion Hbound as [|? ? [motor Hr] Hrest]; subst. rewrite Hr.
    destruct (IH (calls ++ [(motor, ty)]) (uNav.log (uNav.EvRos INFO
                (ctl +:+ "[" +:+ r +:+ "] " +:+ how)) u) Hrest)
      as (new & u' & Hret & Hm & Hn & Hcalls).
    exists ((motor, ty) :: new), u'. rewrite Hret, <- app_assoc.
    repeat split; try done. by constructor.
Qed.

Lemma switch_list_ok disable controllers : forall calls u,
  Forall (fun it => claimed_resources it <> []) controllers ->
  Forall (fun it => Forall (fun r => is_Some (uNav.mMotor u !! r)) (first_resources it))
    controllers ->
  exists new u',
    switch_list disable controllers (calls, u) = Returns (calls ++ new, u') /\
    uNav.mMotor u' = uNav.mMotor u /\
    uNav.mMotorName u' = uNav.mMotorName u /\
    Forall2 (fun rt call => uNav.mMotor u !! rt.1 = Some call.1 /\ call.2 = rt.2)
      (flat_map (fun it => (fun r => (r, if disable then "disable"%string else type it))
                             <$> first_resources it) controllers)
      new.
Proof.
  induction controllers as [|it controllers IH]; intros calls u Hne Hbound; simpl.
  - exists [], u. rewrite app_nil_r. repeat split; constructor.
  - inversion Hne as [|? ? Hit Hne']; inversion Hbound as [|? ? Hres Hbound']; subst.
    unfold first_resources in *.
    destruct (claimed_resources it) as [|iface_res others]; [done|].
    destruct (switch_resources_ok (name it) (if disable then "STOP" else "START")%string
                (if disable then "disable"%string else type it)
                (resources iface_res) calls u Hres)
      as (new1 & u1 & Hret1 & Hm1 & Hn1 & Hcalls1).
    rewrite Hret1. simpl.
    destruct (IH (calls ++ new1) u1 Hne') as (new2 & u2 & Hret2 & Hm2 & Hn2 & Hcalls2).
    { eapply Forall_impl; [exact Hbound'|]. intros it' Hit'. by rewrite Hm1. }
    exists (new1 ++ new2), u2. rewrite Hret2, <- app_assoc.
    split; [done|]. split; [congruence|]. split; [congruence|].
    apply Forall2_app; [done|]. rewrite Hm1 in Hcalls2. done.
Qed.

(** X21: [doSwitch] first disables, then starts.  When every controller of
    the two lists has claimed something and every joint under the first
    interface it claims is a motor, the calls it makes are: "disable" for
    each such joint of the controllers to stop, in list order, and only then
    the type of the controller for each such joint of the controllers to
    start.  Joints claimed under a further interface get no call, and the
    motor containers are left as they were. *)
Theorem doSwitch_disables_then_starts (start_list stop_list : list ControllerInfo)
    (u : uNav.uNavInterface) :
  Forall (fun it => claimed_resources it <> []) (stop_list ++ start_list) ->
  Forall (fun it => Forall (fun r => is_Some (uNav.mMotor u !! r)) (first_resources it))
    (stop_list ++ start_list) ->
  exists calls u',
    doSwitch start_list stop_list u = Returns (calls, u') /\
    uNav.mMotor u' = uNav.mMotor u /\
    uNav.mMotorName u' = uNav.mMotorName u /\
    Forall2 (fun rt call => uNav.mMotor u !! rt.1 = Some call.1 /\ call.2 = rt.2)
      (flat_map (fun it => (fun r => (r, "disable"%string)) <$> first_resources it)
         stop_list
       ++ flat_map (fun it => (fun r => (r, type it)) <$> first_resources it)
            start_list)
      calls.
Proof.
  intros Hne Hbound.
  apply Forall_app in Hne as [Hne1 Hne2]. apply Forall_app in Hbound as [Hb1 Hb2].
  unfold doSwitch.
  destruct (switch_list_ok true stop_list [] u Hne1 Hb1)
    as (new1 & u1 & Hret1 & Hm1 & Hn1 & Hcalls1).
  rewrite Hret1. simpl.
  destruct (switch_list_ok false start_list new1 u1 Hne2)
    as (new2 & u2 & Hret2 & Hm2 & Hn2 & Hcalls2).
  { eapply Forall_impl; [exact Hb2|]. intros it Hit. by rewrite Hm1. }
  exists (new1 ++ new2), u2. rewrite Hret2.
  split; [done|]. split; [congruence|]. split; [congruence|].
  apply Forall2_app; [done|]. rewrite Hm1 in Hcalls2. done.
Qed.

End Motors.

(** X22: the velocity reference of [writeCommandsToHardware] is cut to 16
    bits from above only.  The command, already cut to an integer, is
    scaled by 1000; a product above 32767 gives 32767 and a product within
    the 16 bit range is sent as it is, but for a product below -32768 the
    variable that is sent is never assigned: the reference is whatever
    that variable held. *)
Theorem velocity_reference_saturation (LONG_MAX command velocity : Z) :
  - LONG_MAX - 1 <= command * 1000 <= LONG_MAX ->
  (32 < command ->
   UNAVHardware.velocity_reference LONG_MAX command velocity = Returns 32767) /\
  (-32 <= command <= 32 ->
   UNAVHardware.velocity_reference LONG_MAX command velocity = Returns (command * 1000)) /\
  (command < -32 ->
   UNAVHardware.velocity_reference LONG_MAX command velocity = Returns velocity).
Proof.
  intros [Hlo Hhi]. unfold UNAVHardware.velocity_reference.
  rewrite (proj2 (Z.ltb_ge _ _)) by lia. rewrite (proj2 (Z.ltb_ge _ _)) by lia. simpl.
  split; [|split].
  - intros Hbig. by rewrite (proj2 (Z.gtb_lt _ _)) by lia.
  - intros [Hmin Hmax].
    destruct (command * 1000 >? 32767) eqn:Hgt; [apply Z.gtb_lt in Hgt; lia|].
    rewrite (proj2 (Z.ltb_ge _ _)) by lia.
    unfold UNAVHardware.to_motor_control_t.
    rewrite Z.mod_small by lia. f_equal. lia.
  - intros Hsmall.
    destruct (command * 1000 >? 32767) eqn:Hgt; [apply Z.gtb_lt in Hgt; lia|].
    by rewrite (proj2 (Z.ltb_lt _ _)) by lia.
Qed.

(** ** The interfaces on the small link *)

Lemma systemFrame_own_field_witness :
  exists g',
    ORInterface.systemFrame (H0 := DemoBoard.system) 0 5 2 [49; 46; 48; 0]
      DemoBoard.board.1
    = Returns g' /\
    ORInterface.code_version g' = "1.0"%string /\
    ORInterface.code_board_name g' = "uNav"%string.
Proof.
  eexists. split; [vm_compute; reflexivity|].
  destruct (systemFrame_own_field (H0 := DemoBoard.system) 0 5 2 [49; 46; 48; 0]
              DemoBoard.board.1 _ eq_refl)
    as (_ & _ & _ & Hversion & _ & _ & Hname & _).
  split; [exact Hversion | exact Hname].
Defined.

Lemma reply_runs_systemFrame_witness :
  exists c' message,
    parse_packet (H := DemoBoard.link) Demo.stale 2 DemoBoard.version_reply
      DemoBoard.registered
    = Returns (true, c') /\
    take 4 message = [49; 46; 48; 0] /\
    ORInterface.deliver (H0 := DemoBoard.system) Demo.low_nibble Demo.high_nibble
      (appended DemoBoard.registered c') DemoBoard.board
    = (g ← ORInterface.systemFrame (H0 := DemoBoard.system) 0 5 2 message
             DemoBoard.board.1;
       Returns (g, DemoBoard.board.2)).
Proof.
  apply (reply_runs_systemFrame (H := DemoBoard.link) (H0 := DemoBoard.system)
           Demo.stale Demo.low_nibble Demo.high_nibble 2
           DemoBoard.version_reply DemoBoard.version_packet []
           DemoBoard.registered DemoBoard.board).
  - vm_compute. repeat split; congruence.
  - reflexivity.
  - reflexivity.
  - lia.
  - vm_compute. congruence.
  - reflexivity.
Defined.

Lemma service_reset_witness :
  exists obj' c',
    ORInterface.service_Callback (H := DemoBoard.link) (H0 := DemoBoard.system)
      Demo.stale Demo.low_nibble Demo.high_nibble 1 "ReSeT" "" DemoBoard.board
      DemoBoard.silent
    = Returns (true, "reset"%string, ""%string, obj', c') /\
    list_send c' = [CREATE_PACKET_RESPONSE 9 5 82] /\
    transmitted (trace c') = [EvWrite [4; 4; 5; 82; 9; 0]].
Proof.
  destruct (ORInterface.service_Callback (H := DemoBoard.link) (H0 := DemoBoard.system)
              Demo.stale Demo.low_nibble Demo.high_nibble 1 "ReSeT" "" DemoBoard.board
              DemoBoard.silent)
    as [[[[[b service'] information'] obj'] c']| | |] eqn:Hcall;
    [|vm_compute in Hcall; discriminate..].
  destruct (service_reset (H := DemoBoard.link) (H0 := DemoBoard.system)
              Demo.stale Demo.low_nibble Demo.high_nibble 1 "ReSeT" ""
              DemoBoard.board DemoBoard.silent b service' information' obj' c'
              eq_refl Hcall)
    as (-> & -> & -> & _ & Hkept & _ & _ & Hwrite).
  exists obj', c'. split; [reflexivity|]. split.
  - apply Hkept. vm_compute in Hcall. by injection Hcall as _ <-.
  - apply Hwrite; [constructor | vm_compute; discriminate | reflexivity].
Defined.

Lemma service_ignores_case_witness :
  ORInterface.service_Callback (H := DemoBoard.link) (H0 := DemoBoard.system)
    Demo.stale Demo.low_nibble Demo.high_nibble 1 "Status" "" DemoBoard.board
    DemoBoard.silent
  = Returns (true, "status"%string, ORInterface.help_text DemoBoard.board.1,
             DemoBoard.board, DemoBoard.silent).
Proof.
  refine (proj2 (proj2 (service_ignores_case (H := DemoBoard.link)
                          (H0 := DemoBoard.system) Demo.stale Demo.low_nibble
                          Demo.high_nibble 1 "Status" "" DemoBoard.board
                          DemoBoard.silent)) _ _); discriminate.
Defined.


Lemma run_reports_ready_witness :
  exists stat' obj' c',
    ORInterface.run (H := DemoBoard.link) (H0 := DemoBoard.system)
      Demo.stale Demo.low_nibble Demo.high_nibble 1 (ORInterface.mk_stat [] None)
      DemoBoard.board DemoBoard.silent
    = Returns (stat', obj', c') /\
    ORInterface.summary stat' = Some (ORInterface.OK, "Board ready!"%string).
Proof.
  destruct (ORInterface.run (H := DemoBoard.link) (H0 := DemoBoard.system)
              Demo.stale Demo.low_nibble Demo.high_nibble 1
              (ORInterface.mk_stat [] None) DemoBoard.board DemoBoard.silent)
    as [[[stat' obj'] c']| | |] eqn:Hrun;
    [|vm_compute in Hrun; discriminate..].
  exists stat', obj', c'. split; [reflexivity|].
  exact (proj1 (run_reports_ready (H := DemoBoard.link) (H0 := DemoBoard.system)
                  Demo.stale Demo.low_nibble Demo.high_nibble 1
                  (ORInterface.mk_stat [] None) stat' DemoBoard.board obj'
                  DemoBoard.silent c' Hrun)).
Defined.

Lemma init_motors_names_bound_witness :
  exists name,
    uNav.mMotorName (ORInterface.init_motors ∅).2 !! 1%nat = Some name /\
    uNav.allMotorsFrame Demo.low_nibble Demo.high_nibble 0 7 33 []
      (ORInterface.init_motors ∅).2
    = Returns (uNav.log (uNav.EvMotorFrame name 0 7 2 [])
                 (uNav.log (uNav.EvRos DEBUG "Frame") (ORInterface.init_motors ∅).2)).
Proof.
  refine (proj2 (proj2 (init_motors_names_bound Demo.low_nibble Demo.high_nibble
                          ∅ 0 7 33 [])) _).
  vm_compute. split; congruence.
Defined.

Lemma motor_names_witness :
  uNav.mMotorName
    (ORInterface.init_motors
       (<["motor_0/name_joint"%string := ORInterface.PString "wheel"]>
          (<["motor_1/name_joint"%string := ORInterface.PString "wheel"]> ∅))).2
  = ["wheel"; "wheel"]%string.
Proof.
  refine (proj1 (proj2 (motor_names _) "wheel"%string _ _)); reflexivity.
Defined.

Lemma doSwitch_disables_then_starts_witness :
  exists calls u',
    ORInterface.doSwitch
      [DemoBoard.joint ["motor_0"]%string "vel" "velocity_controllers/JointVelocity"]
      [DemoBoard.joint ["motor_0"; "motor_1"]%string "old" "effort"]
      Demo.two_motors
    = Returns (calls, u') /\
    length calls = 3%nat.
Proof.
  destruct (doSwitch_disables_then_starts
              [DemoBoard.joint ["motor_0"]%string "vel" "velocity_controllers/JointVelocity"]
              [DemoBoard.joint ["motor_0"; "motor_1"]%string "old" "effort"]
              Demo.two_motors)
    as (calls & u' & Hret & _ & _ & Hcalls).
  - repeat constructor; discriminate.
  - repeat constructor; eexists; reflexivity.
  - exists calls, u'. split; [exact Hret|].
    apply Forall2_length in Hcalls. simpl in Hcalls. congruence.
Defined.

Lemma velocity_reference_saturation_witness :
  UNAVHardware.velocity_reference (2 ^ 63 - 1) (-40) 7 = Returns 7.
Proof.
  refine (proj2 (proj2 (velocity_reference_saturation (2 ^ 63 - 1) (-40) 7 _)) _); lia.
Defined.
